(** * mecademic_pydriver: the message log and the command dispatcher

    A shallow embedding of [MecademicLog.py] and [RobotController.py].
    The log is a [collections.deque] with a [maxlen]; the controller
    sends null-terminated commands on a socket and reads decoded
    [(code, payload)] messages back into the log.

    Python objects are mutated in place, so every method is a function
    from the controller state to a result, the new state and the list
    of socket events the call performed.  An exception keeps the state
    reached when it was raised. *)

From Stdlib Require Import String Ascii Bool Arith Lia QArith List DecimalString.
Import ListNotations.
Open Scope string_scope.
Open Scope list_scope.

(** ** Python values *)

(** A log entry is the tuple [(code, payload)]. *)
Definition Entry : Type := (string * string)%type.

(** [a == b] on two such tuples. *)
Definition entry_eqb (a b : Entry) : bool :=
  String.eqb (fst a) (fst b) && String.eqb (snd a) (snd b).

(** [this_message[0].startswith(code)] *)
Definition startswith (code : string) (this_message : Entry) : bool :=
  String.prefix code (fst this_message).

(** An ASCII character: the high bit is clear. *)
Definition is_ascii_char (c : ascii) : bool :=
  match c with
  | Ascii _ _ _ _ _ _ _ b7 => negb b7
  end.

(** [s.encode("ascii")] succeeds: every character of [s] is ASCII. *)
Fixpoint encodable (s : string) : bool :=
  match s with
  | EmptyString => true
  | String c s' => is_ascii_char c && encodable s'
  end.

(** A Python number (int or finite float) together with the text
    [str()] gives for it: [1 == 1.0] holds while the two print
    differently, so the text is carried with the value.  The text of a
    number is made of ASCII characters. *)
Record pynum : Type := MkPyNum {
  value : Q;
  str : string;
  str_ascii : encodable str = true
}.

(** The number [q] that prints as the literal [s]. *)
Abbreviation PyNum q s := (MkPyNum q s eq_refl) (only parsing).

(** The byte ['\0']. *)
Definition NUL : string := String Ascii.zero EmptyString.

(** ** collections.deque with a maxlen *)

Module Deque.

(** [d.append(x)]: push on the right, then drop from the left when
    the bound is exceeded. *)
Definition append (maxlen : nat) (d : list Entry) (x : Entry) : list Entry :=
  let d' := d ++ [x] in
  if (maxlen <? List.length d')%nat then tl d' else d'.

(** [d.extend(xs)]: append each element in turn. *)
Definition extend (maxlen : nat) (d : list Entry) (xs : list Entry) : list Entry :=
  fold_left (append maxlen) xs d.

(** [d.remove(x)]: delete the first element equal to [x];
    [None] stands for the ValueError raised when there is none. *)
Fixpoint remove (x : Entry) (d : list Entry) : option (list Entry) :=
  match d with
  | [] => None
  | y :: d' =>
      if entry_eqb y x then Some d'
      else option_map (cons y) (remove x d')
  end.

(** [d.popleft()] and [d.pop()] on a non-empty deque. *)
Definition popleft (d : list Entry) : option (Entry * list Entry) :=
  match d with
  | [] => None
  | x :: d' => Some (x, d')
  end.

Definition pop (d : list Entry) : option (Entry * list Entry) :=
  match rev d with
  | [] => None
  | x :: r => Some (x, rev r)
  end.

End Deque.

(** ** Exceptions, socket events and the controller state *)

(** The two messages [RuntimeError] is raised with. *)
Inductive runtime_msg : Type :=
| ErrorInLog (method_str : string) (error_msg : Entry)
    (* "RobotController::{} {}".format(method_str, error_msg) *)
| CodeNotFound (method_str : string) (codes : list string).
    (* "RobotController::{} code {} not found in log" *)

Inductive exn : Type :=
| RuntimeError (msg : runtime_msg)
| ValueError (msg : string)
| TypeError      (* subscripting None *)
| IndexError     (* tuple index out of range *)
| UnicodeEncodeError.  (* encode("ascii") on a non-ASCII character *)

Inductive result (A : Type) : Type :=
| Ok (a : A)
| Raise (e : exn).
Arguments Ok {A} a.
Arguments Raise {A} e.

(** What a call does on the socket, in order. *)
Inductive event : Type :=
| EvSend (bytes : string)            (* socket.sendall(bytes) *)
| EvWait (timeout : option Q)        (* wait_for_new_messages(timeout) *)
| EvRead (messages : list Entry)     (* get_last_messages, decoded *)
| EvNotify (messages : list Entry).  (* on_new_messages_received_cb(messages) *)

(** The attributes set by [RobotController.__init__] (address and port
    play no role below). *)
Record Settings : Type := {
  socket_timeout : Q;
  motion_commands_response_timeout : Q;
  log_size : nat;
  on_new_messages_received : bool  (* is a callback registered? *)
}.

(** A connected controller: its settings, the deque of its
    [MecademicLog] (oldest entry first, [maxlen = log_size]) and the
    socket seen from the receiving side. *)
Record RobotController : Type := {
  settings : Settings;
  log : list Entry;
  incoming : list (list Entry)
}.

(** Modelled from the spec: [MessageReceiver] and [messages2codepayload]
    (modules MessageReceiver and parsingLib) are not available.  Following
    the spec's Frame Source and Payload Codec, each refresh pulls the
    frames available at that moment, decoded to [(code, payload)] pairs
    in arrival order.  [incoming] lists what the successive calls
    [messages2codepayload(get_last_messages(self.log.maxlen))] return;
    a call past its end returns nothing. *)
Definition get_last_messages (incoming : list (list Entry))
  : list Entry * list (list Entry) :=
  match incoming with
  | [] => ([], [])
  | messages :: rest => (messages, rest)
  end.

Definition set_log (st : RobotController) (l : list Entry) : RobotController :=
  {| settings := settings st; log := l; incoming := incoming st |}.

Definition set_incoming (st : RobotController) (i : list (list Entry))
  : RobotController :=
  {| settings := settings st; log := log st; incoming := i |}.

Definition maxlen (st : RobotController) : nat := log_size (settings st).

(** ** The monad of methods *)

Definition M (A : Type) : Type :=
  RobotController -> result A * RobotController * list event.

Definition ret {A} (a : A) : M A := fun st => (Ok a, st, []).

Definition raise {A} (e : exn) : M A := fun st => (Raise e, st, []).

Definition bind {A B} (m : M A) (k : A -> M B) : M B := fun st =>
  match m st with
  | (Ok a, st1, ev1) =>
      match k a st1 with
      | (r, st2, ev2) => (r, st2, ev1 ++ ev2)
      end
  | (Raise e, st1, ev1) => (Raise e, st1, ev1)
  end.

Notation "x <- m ;; k" := (bind m (fun x => k))
  (at level 61, m at next level, right associativity).
Notation "m ;; k" := (bind m (fun _ => k))
  (at level 61, right associativity).

(** [try: body / except RuntimeError: handler] *)
Definition try_except_RuntimeError {A} (body handler : M A) : M A := fun st =>
  match body st with
  | (Raise (RuntimeError _), st1, ev1) =>
      match handler st1 with
      | (r, st2, ev2) => (r, st2, ev1 ++ ev2)
      end
  | other => other
  end.

(** [for x in xs: body(x)] *)
Fixpoint for_each {A} (xs : list A) (body : A -> M unit) : M unit :=
  match xs with
  | [] => ret tt
  | x :: xs' => body x ;; for_each xs' body
  end.

Definition emit (ev : list event) : M unit := fun st => (Ok tt, st, ev).

(** ** MecademicLog *)

(** [get_log] *)
Definition get_log : M (list Entry) := fun st => (Ok (log st), st, []).

(** [update_log(wait_for_new_messages, timeout)] *)
Definition update_log (wait_for_new_messages : bool) (timeout : option Q)
  : M unit := fun st =>
  let ev_wait := if wait_for_new_messages then [EvWait timeout] else [] in
  let '(messages, rest) := get_last_messages (incoming st) in
  let st1 := set_incoming st rest in
  match messages with
  | [] => (Ok tt, st1, ev_wait ++ [EvRead messages])
  | _ :: _ =>
      let ev_cb :=
        if on_new_messages_received (settings st) then [EvNotify messages]
        else [] in
      (Ok tt, set_log st1 (Deque.extend (maxlen st) (log st) messages),
       ev_wait ++ [EvRead messages] ++ ev_cb)
  end.

(** [get_first_message] *)
Definition get_first_message : M (option Entry) := fun st =>
  match Deque.popleft (log st) with
  | Some (x, d) => (Ok (Some x), set_log st d, [])
  | None => (Ok None, st, [])
  end.

(** [get_last_message] *)
Definition get_last_message : M (option Entry) := fun st =>
  match Deque.pop (log st) with
  | Some (x, d) => (Ok (Some x), set_log st d, [])
  | None => (Ok None, st, [])
  end.

(** [self.log.remove(message)] *)
Definition log_remove (message : Entry) : M unit := fun st =>
  match Deque.remove message (log st) with
  | Some d => (Ok tt, set_log st d, [])
  | None => (Raise (ValueError "deque.remove(x): x not in deque"), st, [])
  end.

(** [self.log.reverse()] *)
Definition log_reverse : M unit := fun st =>
  (Ok tt, set_log st (rev (log st)), []).

(** [remove_all_code(code)] *)
Definition remove_all_code (code : string) : M unit := fun st =>
  let messages_to_remove := filter (startswith code) (log st) in
  for_each messages_to_remove log_remove st.

(** [get_last_code_occurance(code, delete_others)].  The last statement
    of the [else] branch is the expression [self.log.reverse], which
    names the method without calling it. *)
Definition get_last_code_occurance (code : string) (delete_others : bool)
  : M (option Entry) := fun st =>
  let message := find (startswith code) (rev (log st)) in
  match message with
  | Some m =>
      ((if delete_others then remove_all_code code
        else (log_reverse ;; log_remove m)) ;;
       ret message) st
  | None => (Ok None, st, [])
  end.

(** [clear_log] *)
Definition clear_log : M unit := fun st => (Ok tt, set_log st [], []).

(** [get_all_messages(code)] *)
Definition get_all_messages (code : string) : M (list Entry) := fun st =>
  let messages := log st in
  (clear_log ;; ret messages) st.

(** ** parsingLib *)

(** Modelled from the spec: [build_command] of parsingLib is not
    available.  A name with no argument is sent verbatim; otherwise the
    command is [Name(arg0,arg1,...,argN)], the arguments in their
    textual form, comma-separated, with no trailing comma. *)
Definition build_command (name : string) (args : list pynum) : string :=
  match args with
  | [] => name
  | _ :: _ => name ++ "(" ++ String.concat "," (map str args) ++ ")"
  end.

(** Splitting a payload on commas. *)
Fixpoint split_commas (s : string) : list string :=
  match s with
  | EmptyString => [EmptyString]
  | String c s' =>
      if Ascii.eqb c "," then EmptyString :: split_commas s'
      else
        match split_commas s' with
        | [] => [String c EmptyString]
        | w :: ws => String c w :: ws
        end
  end.

Definition digit_of_ascii (c : ascii) : option Z :=
  let n := nat_of_ascii c in
  if ((48 <=? n) && (n <=? 57))%nat then Some (Z.of_nat (n - 48)) else None.

Fixpoint digits_to_Z (acc : Z) (s : string) : option Z :=
  match s with
  | EmptyString => Some acc
  | String c s' =>
      match digit_of_ascii c with
      | Some d => digits_to_Z (10 * acc + d)%Z s'
      | None => None
      end
  end.

(** [int(x)] on a decimal numeral with an optional minus sign. *)
Definition int_of_string (s : string) : option Z :=
  match s with
  | EmptyString => None
  | String "-" (String c s') => option_map Z.opp (digits_to_Z 0 (String c s'))
  | _ => digits_to_Z 0 s
  end.

Fixpoint map_option {A B} (f : A -> option B) (l : list A) : option (list B) :=
  match l with
  | [] => Some []
  | x :: l' =>
      match f x, map_option f l' with
      | Some y, Some ys => Some (y :: ys)
      | _, _ => None
      end
  end.

(** Modelled from the spec: [payload2tuple] of parsingLib is not
    available.  With [output_type = int] the payload is split on commas
    and every field is converted by [int]; a field that is no integer
    raises ValueError. *)
Definition payload2tuple_int (payload : string) : M (list Z) :=
  match map_option int_of_string (split_commas payload) with
  | Some t => ret t
  | None => raise (ValueError "invalid literal for int()")
  end.

(** [t[i]] on a tuple. *)
Definition index (t : list Z) (i : nat) : M Z :=
  match nth_error t i with
  | Some x => ret x
  | None => raise IndexError
  end.

(** [msg[1]] where [msg] may be [None]. *)
Definition payload_of (msg : option Entry) : M string :=
  match msg with
  | Some m => ret (snd m)
  | None => raise TypeError
  end.

(** ** RobotController *)

(** [check_response(codes, method_str)] *)
Fixpoint check_response_loop (codes all_codes : list string)
  (method_str : string) : M unit :=
  match codes with
  | [] => raise (RuntimeError (CodeNotFound method_str all_codes))
  | code :: codes' =>
      msg <- get_last_code_occurance code true ;;
      match msg with
      | Some _ => ret tt
      | None => check_response_loop codes' all_codes method_str
      end
  end.

Definition check_response (codes : list string) (method_str : string)
  : M unit :=
  match codes with
  | [] => ret tt
  | _ :: _ => check_response_loop codes codes method_str
  end.

(** [handle_specific_error(code, method_str)] *)
Definition handle_specific_error (code method_str : string) : M unit :=
  error_msg <- get_last_code_occurance code true ;;
  match error_msg with
  | Some m => raise (RuntimeError (ErrorInLog method_str m))
  | None => ret tt
  end.

(** [handle_errors(method_str)]; its [delete_others] argument is not
    used by the body. *)
Definition handle_errors (method_str : string) : M unit :=
  error_msg <- get_last_code_occurance "1" false ;;
  match error_msg with
  | Some m => raise (RuntimeError (ErrorInLog method_str m))
  | None => ret tt
  end.

(** [send_string_command(cmd)]: encoding a command with a non-ASCII
    character raises before anything is sent. *)
Definition send_string_command (cmd : string) : M unit :=
  let command := (cmd ++ NUL)%string in
  if encodable command then emit [EvSend command]
  else raise UnicodeEncodeError.

(** [send_command_handled]; the warning printed before the retry is
    left out. *)
Definition send_command_handled (cmd method_str : string)
  (codes_to_remove_from_log errors_code responses_code : list string)
  (handle_all_errors wait_for_new_messages : bool) (timeout : option Q)
  : M unit :=
  update_log false None ;;
  for_each codes_to_remove_from_log remove_all_code ;;
  send_string_command cmd ;;
  update_log wait_for_new_messages timeout ;;
  for_each errors_code (fun code => handle_specific_error code method_str) ;;
  (if handle_all_errors then handle_errors method_str else ret tt) ;;
  try_except_RuntimeError
    (check_response responses_code method_str)
    (update_log wait_for_new_messages timeout ;;
     handle_errors method_str ;;
     check_response responses_code method_str).

(** *** Request commands *)

Definition ActivateRobot : M unit :=
  send_command_handled "ActivateRobot" "ActivateRobot"
    ["1005"] ["1013"] ["2000"; "2001"] true true None.

Definition ClearMotion : M unit :=
  send_command_handled "ClearMotion" "ClearMotion"
    [] [] ["2044"] true true None.

Definition DeactivateRobot : M unit :=
  send_command_handled "DeactivateRobot" "DeactivateRobot"
    ["1005"] [] ["2004"] true true None.

(** One pass of [GetConf]; [again] is the call [self.GetConf(retry=False)]
    when [retry] holds. *)
Definition GetConf_pass (again : option (M (list (string * Z))))
  : M (list (string * Z)) :=
  send_string_command "GetConf" ;;
  update_log true None ;;
  handle_errors "GetConf" ;;
  msg <- get_last_code_occurance "2029" true ;;
  match msg, again with
  | None, Some retry_call => retry_call
  | _, _ =>
      payload <- payload_of msg ;;
      conf <- payload2tuple_int payload ;;
      c1 <- index conf 0 ;;
      c3 <- index conf 1 ;;
      c5 <- index conf 2 ;;
      ret [("c1", c1); ("c3", c3); ("c5", c5)]
  end.

Definition GetConf (retry : bool) : M (list (string * Z)) :=
  GetConf_pass (if retry then Some (GetConf_pass None) else None).

(** One pass of [GetStatusRobot], in the same way. *)
Definition GetStatusRobot_pass (again : option (M (list (string * Z))))
  : M (list (string * Z)) :=
  send_string_command "GetStatusRobot" ;;
  update_log true None ;;
  msg <- get_last_code_occurance "2007" true ;;
  match msg, again with
  | None, Some retry_call => retry_call
  | _, _ =>
      payload <- payload_of msg ;;
      status <- payload2tuple_int payload ;;
      s0 <- index status 0 ;;
      s1 <- index status 1 ;;
      s2 <- index status 2 ;;
      s3 <- index status 3 ;;
      s4 <- index status 4 ;;
      s5 <- index status 5 ;;
      s6 <- index status 6 ;;
      ret [("as", s0); ("hs", s1); ("sm", s2); ("es", s3);
           ("pm", s4); ("eob", s5); ("eom", s6)]
  end.

Definition GetStatusRobot (retry : bool) : M (list (string * Z)) :=
  GetStatusRobot_pass (if retry then Some (GetStatusRobot_pass None) else None).

Definition Home : M unit :=
  send_command_handled "Home" "Home"
    ["1006"] ["1014"] ["2002"; "2003"] true true None.

Definition ResetError : M unit :=
  send_command_handled "ResetError" "ResetError"
    ["1"] ["1025"] ["2005"; "2006"] false true None ;;
  update_log false None ;;
  remove_all_code "1".

Definition ResumeMotion : M unit :=
  send_command_handled "ResumeMotion" "ResumeMotion"
    [] [] ["2043"] true true None.

(** [SetEOB(e)]; the literal ["cmd"] is what the source passes as
    [method_str]. *)
Definition SetEOB (e : pynum) : M unit :=
  responses_code <-
    (if Qeq_bool (value e) 0 then ret ["2055"]
     else if Qeq_bool (value e) 1 then ret ["2054"]
     else raise (ValueError
            ("RobotController::SetEOB invalid argument e=" ++ str e))) ;;
  send_command_handled (build_command "SetEOB" [e]) "cmd"
    [] [] responses_code true true None.

Definition SetEOM (e : pynum) : M unit :=
  responses_code <-
    (if Qeq_bool (value e) 0 then ret ["2053"]
     else if Qeq_bool (value e) 1 then ret ["2052"]
     else raise (ValueError
            ("RobotController::SetEOM invalid argument e=" ++ str e))) ;;
  send_command_handled (build_command "SetEOM" [e]) "cmd"
    [] [] responses_code true true None.

(** *** Motion commands *)

Definition update_log_for_motion_commands : M unit := fun st =>
  update_log true
    (Some (motion_commands_response_timeout (settings st))) st.

(** [str(len(joints))] *)
Definition str_nat (n : nat) : string :=
  NilZero.string_of_uint (Nat.to_uint n).

Definition MoveJoints (joints : list pynum) : M unit :=
  if negb (List.length joints =? 6)%nat then
    raise (ValueError
      ("RobotController::MoveJoints Meca500 has 6 joints "
         ++ str_nat (List.length joints) ++ " provided"))
  else
    send_string_command (build_command "MoveJoints" joints) ;;
    update_log_for_motion_commands.

Definition SetBlending (p : pynum) : M unit :=
  if negb (Qle_bool 0 (value p) && Qle_bool (value p) 100) then
    raise (ValueError
      ("RobotController::SetBlending invalid value p=" ++ str p))
  else
    send_string_command (build_command "SetBlending" [p]) ;;
    update_log_for_motion_commands.

(** ** Notions used by the statements *)

Definition entry_eq_dec (a b : Entry) : {a = b} + {a <> b}.
Proof. repeat decide equality. Defined.

(** How often [m] occurs in a list of entries. *)
Definition occurrences (m : Entry) (l : list Entry) : nat :=
  count_occ entry_eq_dec l m.

(** How many entries of the log carry a code that starts with [code]. *)
Definition count_code (code : string) (l : list Entry) : nat :=
  List.length (filter (startswith code) l).

(** The last [n] elements of [l]: the [n] most recent ones, oldest
    first, when [l] stands in the order of arrival. *)
Definition most_recent (n : nat) (l : list Entry) : list Entry :=
  skipn (List.length l - n) l.

(** Everything the controller holds or will still receive. *)
Definition all_entries (st : RobotController) : list Entry :=
  log st ++ concat (incoming st).

(** A later state of the same controller: same settings, no entry that
    was not held or still to come, and the bound of the deque kept. *)
Record evolves (st st' : RobotController) : Prop := {
  evolves_settings : settings st' = settings st;
  evolves_entries :
    forall m, (occurrences m (all_entries st')
               <= occurrences m (all_entries st))%nat;
  evolves_bound :
    (List.length (log st) <= maxlen st)%nat ->
    (List.length (log st') <= maxlen st')%nat
}.

(** A method is sound when every call leads to a later state. *)
Definition sound {A} (m : M A) : Prop :=
  forall st r st' ev, m st = (r, st', ev) -> evolves st st'.

(** The events that follow the first transmission. *)
Fixpoint after_send (ev : list event) : list event :=
  match ev with
  | [] => []
  | EvSend _ :: ev' => ev'
  | _ :: ev' => after_send ev'
  end.

(** The events that precede the first transmission. *)
Fixpoint before_send (ev : list event) : list event :=
  match ev with
  | [] => []
  | EvSend _ :: _ => []
  | e :: ev' => e :: before_send ev'
  end.

Definition is_read (e : event) : bool :=
  match e with EvRead _ => true | _ => false end.

Definition is_send (e : event) : bool :=
  match e with EvSend _ => true | _ => false end.

(** The timeouts of the waits for new messages, in order. *)
Fixpoint waits (ev : list event) : list (option Q) :=
  match ev with
  | [] => []
  | EvWait timeout :: ev' => timeout :: waits ev'
  | _ :: ev' => waits ev'
  end.

(** Number of log refreshes among the events. *)
Definition count_reads (ev : list event) : nat :=
  List.length (filter is_read ev).

(** Number of transmissions among the events. *)
Definition count_sends (ev : list event) : nat :=
  List.length (filter is_send ev).

(** The methods of [MecademicLog] that touch the deque. *)
Inductive log_operation : Type :=
| OpUpdateLog (wait_for_new_messages : bool) (timeout : option Q)
| OpGetFirstMessage
| OpGetLastMessage
| OpGetLastCodeOccurance (code : string) (delete_others : bool)
| OpRemoveAllCode (code : string)
| OpGetAllMessages (code : string)
| OpClearLog.

Definition state_after {A} (m : M A) (st : RobotController) : RobotController :=
  snd (fst (m st)).

Definition run_log_operation (op : log_operation) (st : RobotController)
  : RobotController :=
  match op with
  | OpUpdateLog w t => state_after (update_log w t) st
  | OpGetFirstMessage => state_after get_first_message st
  | OpGetLastMessage => state_after get_last_message st
  | OpGetLastCodeOccurance c d => state_after (get_last_code_occurance c d) st
  | OpRemoveAllCode c => state_after (remove_all_code c) st
  | OpGetAllMessages c => state_after (get_all_messages c) st
  | OpClearLog => state_after clear_log st
  end.

(** The state a log refresh leaves and the events it performs. *)
Definition refreshed (st : RobotController) : RobotController :=
  state_after (update_log false None) st.

Definition refresh_events (wait_for_new_messages : bool) (timeout : option Q)
  (st : RobotController) : list event :=
  snd (update_log wait_for_new_messages timeout st).

(** The log without the entries whose code starts with [code]. *)
Definition without_code (code : string) (l : list Entry) : list Entry :=
  filter (fun m => negb (startswith code m)) l.

(** The defaults of [RobotController.__init__]. *)
Definition default_settings : Settings :=
  {| socket_timeout := 1 # 10;
     motion_commands_response_timeout := 1 # 1000;
     log_size := 100;
     on_new_messages_received := false |}.

(** A controller with the default settings, a given log and given
    batches still to be received. *)
Definition controller (l : list Entry) (i : list (list Entry))
  : RobotController :=
  {| settings := default_settings; log := l; incoming := i |}.

(** The same with a log of capacity [n]. *)
Definition small_controller (n : nat) (l : list Entry)
  (i : list (list Entry)) : RobotController :=
  {| settings :=
       {| socket_timeout := 1 # 10;
          motion_commands_response_timeout := 1 # 1000;
          log_size := n;
          on_new_messages_received := false |};
     log := l; incoming := i |}.

(** No entry of [l] has a code that starts with one of [codes]. *)
Definition none_with (codes : list string) (l : list Entry) : Prop :=
  forall c m, In c codes -> In m l -> startswith c m = false.

(** The state in which [send_command_handled] transmits: the log
    refreshed without waiting, the codes to forget removed. *)
Definition prepared_log (codes_to_remove_from_log : list string)
  (st : RobotController) : RobotController :=
  state_after (for_each codes_to_remove_from_log remove_all_code) st.

Definition prepared (codes_to_remove_from_log : list string)
  (st : RobotController) : RobotController :=
  prepared_log codes_to_remove_from_log (refreshed st).

(** The statements of [send_command_handled] that follow the refresh
    made after the transmission. *)
Definition checks_after_send (method_str : string)
  (errors_code responses_code : list string)
  (handle_all_errors wait_for_new_messages : bool) (timeout : option Q)
  : M unit :=
  for_each errors_code (fun code => handle_specific_error code method_str) ;;
  (if handle_all_errors then handle_errors method_str else ret tt) ;;
  try_except_RuntimeError
    (check_response responses_code method_str)
    (update_log wait_for_new_messages timeout ;;
     handle_errors method_str ;;
     check_response responses_code method_str).

(** The ways these statements can end, from the state [st] reached by
    the refresh after the transmission. *)
Inductive check_outcome (method_str : string)
  (errors_code responses_code : list string)
  (handle_all_errors wait_for_new_messages : bool) (timeout : option Q)
  (st : RobotController)
  : result unit -> RobotController -> list event -> Prop :=
| SpecificErrorFound (c : string) (m : Entry) :
    In c errors_code -> In m (log st) -> startswith c m = true ->
    check_outcome method_str errors_code responses_code handle_all_errors
      wait_for_new_messages timeout st
      (Raise (RuntimeError (ErrorInLog method_str m)))
      (set_log st (without_code c (log st))) []
| GenericErrorFound (l1 : list Entry) (m : Entry) (l2 : list Entry) :
    handle_all_errors = true ->
    log st = l1 ++ m :: l2 -> startswith "1" m = true ->
    check_outcome method_str errors_code responses_code handle_all_errors
      wait_for_new_messages timeout st
      (Raise (RuntimeError (ErrorInLog method_str m)))
      (set_log st (rev l2 ++ rev l1)) []
| NothingExpected :
    responses_code = [] ->
    check_outcome method_str errors_code responses_code handle_all_errors
      wait_for_new_messages timeout st (Ok tt) st []
| ResponseFound (c : string) (m : Entry) :
    In c responses_code -> In m (log st) -> startswith c m = true ->
    check_outcome method_str errors_code responses_code handle_all_errors
      wait_for_new_messages timeout st
      (Ok tt) (set_log st (without_code c (log st))) []
| RetryErrorFound (l1 : list Entry) (m : Entry) (l2 : list Entry) :
    responses_code <> [] -> none_with responses_code (log st) ->
    log (refreshed st) = l1 ++ m :: l2 -> startswith "1" m = true ->
    check_outcome method_str errors_code responses_code handle_all_errors
      wait_for_new_messages timeout st
      (Raise (RuntimeError (ErrorInLog method_str m)))
      (set_log (refreshed st) (rev l2 ++ rev l1))
      (refresh_events wait_for_new_messages timeout st)
| RetryResponseFound (c : string) (m : Entry) :
    responses_code <> [] -> none_with responses_code (log st) ->
    In c responses_code -> In m (log (refreshed st)) ->
    startswith c m = true ->
    check_outcome method_str errors_code responses_code handle_all_errors
      wait_for_new_messages timeout st
      (Ok tt)
      (set_log (refreshed st) (without_code c (log (refreshed st))))
      (refresh_events wait_for_new_messages timeout st)
| RetryNotFound :
    responses_code <> [] -> none_with responses_code (log st) ->
    none_with responses_code (log (refreshed st)) ->
    check_outcome method_str errors_code responses_code handle_all_errors
      wait_for_new_messages timeout st
      (Raise (RuntimeError (CodeNotFound method_str responses_code)))
      (refreshed st)
      (refresh_events wait_for_new_messages timeout st).

(** A sequence of such calls, in order. *)
Definition run_log_operations (ops : list log_operation)
  (st : RobotController) : RobotController :=
  fold_left (fun s op => run_log_operation op s) ops st.

(** A fresh [MecademicLog]: [deque([], log_size)]. *)
Definition new_controller (s : Settings) (i : list (list Entry))
  : RobotController :=
  {| settings := s; log := []; incoming := i |}.

(** ** The remaining motion commands *)

(** [x < y] on numbers. *)
Definition Qlt_bool (x y : Q) : bool :=
  match (x ?= y)%Q with
  | Lt => true
  | _ => false
  end.

(** The float literal [0.001]: the double nearest to one thousandth,
    which is slightly above it. *)
Definition float_0_001 : Q := 1152921504606847 # 1152921504606846976.

(** [MoveLin], [MoveLinRelTRF], [MoveLinRelWRF], [MovePose], [SetTRF]
    and [SetWRF] have one body: both lists must have three elements,
    the first being checked first; then the command is sent with the
    six values and the log is refreshed.  They differ in the command
    name and in the name the first list has in the error message. *)
Definition pose_command (name first_name : string)
  (first orientation : list pynum) : M unit :=
  if negb (List.length first =? 3)%nat then
    raise (ValueError
      ("RobotController::" ++ name ++ " " ++ first_name
         ++ " must have len=3, " ++ str_nat (List.length first)
         ++ " provided"))
  else if negb (List.length orientation =? 3)%nat then
    raise (ValueError
      ("RobotController::" ++ name ++ " orientation must have len=3, "
         ++ str_nat (List.length orientation) ++ " provided"))
  else
    send_string_command (build_command name (first ++ orientation)) ;;
    update_log_for_motion_commands.

Definition MoveLin (position orientation : list pynum) : M unit :=
  pose_command "MoveLin" "position" position orientation.

Definition MoveLinRelTRF (position orientation : list pynum) : M unit :=
  pose_command "MoveLinRelTRF" "position" position orientation.

Definition MoveLinRelWRF (position orientation : list pynum) : M unit :=
  pose_command "MoveLinRelWRF" "position" position orientation.

Definition MovePose (position orientation : list pynum) : M unit :=
  pose_command "MovePose" "position" position orientation.

Definition SetTRF (origin orientation : list pynum) : M unit :=
  pose_command "SetTRF" "origin" origin orientation.

Definition SetWRF (origin orientation : list pynum) : M unit :=
  pose_command "SetWRF" "origin" origin orientation.

Definition SetCartAcc (p : pynum) : M unit :=
  if negb (Qlt_bool 1 (value p) && Qle_bool (value p) 100) then
    raise (ValueError
      ("RobotController::SetCartAcc invalid value p=" ++ str p))
  else
    send_string_command (build_command "SetCartAcc" [p]) ;;
    update_log_for_motion_commands.

Definition SetCartAngVel (omega : pynum) : M unit :=
  if negb (Qle_bool float_0_001 (value omega)
           && Qle_bool (value omega) 180) then
    raise (ValueError
      ("RobotController::SetCartAngVel invalid value omega=" ++ str omega))
  else
    send_string_command (build_command "SetCartAngVel" [omega]) ;;
    update_log_for_motion_commands.

Definition SetCartLinVel (v : pynum) : M unit :=
  if negb (Qle_bool float_0_001 (value v) && Qle_bool (value v) 500) then
    raise (ValueError
      ("RobotController::SetCartLinVel invalid value v=" ++ str v))
  else
    send_string_command (build_command "SetCartLinVel" [v]) ;;
    update_log_for_motion_commands.

Definition SetJointAcc (p : pynum) : M unit :=
  if negb (Qle_bool 1 (value p) && Qle_bool (value p) 100) then
    raise (ValueError
      ("RobotController::SetJointAcc invalid value p=" ++ str p))
  else
    send_string_command (build_command "SetJointAcc" [p]) ;;
    update_log_for_motion_commands.

Definition SetJointVel (p : pynum) : M unit :=
  if negb (Qle_bool 0 (value p) && Qle_bool (value p) 100) then
    raise (ValueError
      ("RobotController::SetJointVel invalid value p=" ++ str p))
  else
    send_string_command (build_command "SetJointVel" [p]) ;;
    update_log_for_motion_commands.

(** ** Connecting *)

(** The controller object as a whole: [self.socket] is [None] until
    [connect] creates it, and [self.mecademic_log] until [connect]
    creates the log.  A socket is represented by the batches it will
    deliver.  Opening the TCP connection is taken to succeed. *)
Record RobotObject : Type := {
  obj_settings : Settings;
  obj_socket : option (list (list Entry));
  obj_mecademic_log : option (list Entry)
}.

(** The statements of [connect] that follow the creation of the log. *)
Definition handshake : M unit :=
  update_log true None ;;
  handle_specific_error "3001" "connect" ;;
  handle_errors "connect" ;;
  check_response ["3000"] "check_reconnectsponse".

(** [connect()], where [peer] is what the new socket will deliver. *)
Definition connect (peer : list (list Entry)) (o : RobotObject)
  : result unit * RobotObject * list event :=
  match obj_socket o with
  | Some _ => (Ok tt, o, [])
  | None =>
      match handshake (new_controller (obj_settings o) peer) with
      | (r, st, ev) =>
          (r,
           {| obj_settings := obj_settings o;
              obj_socket := Some (incoming st);
              obj_mecademic_log := Some (log st) |},
           ev)
      end
  end.

(** [disconnect()] *)
Definition disconnect (o : RobotObject) : RobotObject :=
  match obj_socket o with
  | Some _ =>
      {| obj_settings := obj_settings o;
         obj_socket := None;
         obj_mecademic_log := obj_mecademic_log o |}
  | None => o
  end.

(** ** The command builder of MecademicRobot.py *)

(** [str(arg_list[index])] *)
Definition str_at (arg_list : list pynum) (index : nat) : string :=
  match nth_error arg_list index with
  | Some a => str a
  | None => ""
  end.

(** [str(arg_list[-1])] *)
Definition str_last (arg_list : list pynum) : string :=
  str_at arg_list (List.length arg_list - 1).

(** [MecademicRobot._buildCommand(cmd, arg_list)] *)
Definition _buildCommand (cmd : string) (arg_list : list pynum) : string :=
  if negb (List.length arg_list =? 0)%nat then
    let command := (cmd ++ "(")%string in
    let command :=
      fold_left
        (fun command index =>
           ((command ++ str_at arg_list index) ++ ",")%string)
        (seq 0 (List.length arg_list - 1)) command in
    ((command ++ str_last arg_list) ++ ")")%string
  else cmd.

(** ** Further notions used by the statements *)

(** The byte strings transmitted, in order. *)
Fixpoint sent (ev : list event) : list string :=
  match ev with
  | [] => []
  | EvSend bytes :: ev' => bytes :: sent ev'
  | _ :: ev' => sent ev'
  end.

(** The batches handed to the callback, in order. *)
Fixpoint notified (ev : list event) : list (list Entry) :=
  match ev with
  | [] => []
  | EvNotify messages :: ev' => messages :: notified ev'
  | _ :: ev' => notified ev'
  end.

(** The non-empty batches read, in order. *)
Fixpoint received (ev : list event) : list (list Entry) :=
  match ev with
  | [] => []
  | EvRead (x :: messages) :: ev' => (x :: messages) :: received ev'
  | _ :: ev' => received ev'
  end.

(** The request commands that go through [send_command_handled] with
    fixed arguments, each with the name it transmits and the response
    codes it expects. *)
Definition request_commands : list (string * M unit * list string) :=
  [("ActivateRobot", ActivateRobot, ["2000"; "2001"]);
   ("ClearMotion", ClearMotion, ["2044"]);
   ("DeactivateRobot", DeactivateRobot, ["2004"]);
   ("Home", Home, ["2002"; "2003"]);
   ("ResetError", ResetError, ["2005"; "2006"]);
   ("ResumeMotion", ResumeMotion, ["2043"])].

(** The motion commands that take a position (or origin) and an
    orientation, each with the name it transmits. *)
Definition pose_commands
  : list (string * (list pynum -> list pynum -> M unit)) :=
  [("MoveLin", MoveLin); ("MoveLinRelTRF", MoveLinRelTRF);
   ("MoveLinRelWRF", MoveLinRelWRF); ("MovePose", MovePose);
   ("SetTRF", SetTRF); ("SetWRF", SetWRF)].

(** The motion commands that take one bounded number, each with the
    name it transmits and the values it lets through. *)
Definition limit_commands
  : list (string * (pynum -> M unit) * (Q -> Prop)) :=
  [("SetCartAcc", SetCartAcc, fun p => (1 < p /\ p <= 100)%Q);
   ("SetCartAngVel", SetCartAngVel,
    fun omega => (float_0_001 <= omega /\ omega <= 180)%Q);
   ("SetCartLinVel", SetCartLinVel,
    fun v => (float_0_001 <= v /\ v <= 500)%Q);
   ("SetJointAcc", SetJointAcc, fun p => (1 <= p /\ p <= 100)%Q);
   ("SetJointVel", SetJointVel, fun p => (0 <= p /\ p <= 100)%Q)].

(** The arguments of a list, each followed by a comma. *)
Fixpoint commas (args : list pynum) : string :=
  match args with
  | [] => ""
  | a :: args' => str a ++ "," ++ commas args'
  end.

(** An object that was never connected. *)
Definition new_object (s : Settings) : RobotObject :=
  {| obj_settings := s; obj_socket := None; obj_mecademic_log := None |}.

(** A computation that touches neither the state nor the socket and
    raises no RuntimeError. *)
Definition quiet {A} (m : M A) : Prop :=
  forall st,
    snd (m st) = [] /\ state_after m st = st /\
    forall msg, fst (fst (m st)) <> Raise (RuntimeError msg).

(** The events of a motion command that passed its validation. *)
Definition motion_events (name : string) (args : list pynum)
  (st : RobotController) : list event :=
  EvSend (build_command name args ++ NUL)
  :: refresh_events true
       (Some (motion_commands_response_timeout (settings st))) st.

(** * Properties *)

(** ** Lists and deques *)

Lemma string_append_assoc (s1 s2 s3 : string) :
  ((s1 ++ s2) ++ s3 = s1 ++ (s2 ++ s3))%string.
Proof.
  induction s1 as [|c s1 IH]; simpl; [reflexivity|]. rewrite IH. reflexivity.
Qed.

Lemma encodable_app (s1 s2 : string) :
  encodable (s1 ++ s2) = encodable s1 && encodable s2.
Proof.
  induction s1 as [|c s1 IH]; cbn [append encodable]; [reflexivity|].
  rewrite IH, andb_assoc. reflexivity.
Qed.

Lemma encodable_commas (texts : list string) :
  forallb encodable texts = true ->
  encodable (String.concat "," texts) = true.
Proof.
  induction texts as [|x texts IH]; [reflexivity|].
  cbn [forallb]. intros H. apply andb_true_iff in H. destruct H as [Hx Hl].
  destruct texts as [|y texts]; [exact Hx|].
  cbn [String.concat] in *. rewrite !encodable_app, Hx, (IH Hl). reflexivity.
Qed.

(** A command built from an ASCII name and numbers is ASCII. *)
Lemma encodable_build_command (name : string) (args : list pynum) :
  encodable name = true ->
  encodable (build_command name args ++ NUL) = true.
Proof.
  intros Hn. rewrite encodable_app, andb_true_r.
  unfold build_command. destruct args as [|a args]; [exact Hn|].
  rewrite !encodable_app, Hn, encodable_commas; [reflexivity|].
  apply forallb_forall. intros x Hx. apply in_map_iff in Hx.
  destruct Hx as (p & <- & _). apply str_ascii.
Qed.

Lemma send_string_command_ok (cmd : string) :
  encodable (cmd ++ NUL) = true ->
  send_string_command cmd = emit [EvSend (cmd ++ NUL)].
Proof. intros H. unfold send_string_command. rewrite H. reflexivity. Qed.

Lemma send_string_command_refused (cmd : string) :
  encodable (cmd ++ NUL) = false ->
  send_string_command cmd = raise UnicodeEncodeError.
Proof. intros H. unfold send_string_command. rewrite H. reflexivity. Qed.

Lemma entry_eqb_eq (a b : Entry) : entry_eqb a b = true <-> a = b.
Proof.
  destruct a as [c p], b as [c' p']. unfold entry_eqb. simpl.
  rewrite andb_true_iff, !String.eqb_eq. split.
  - intros [-> ->]. reflexivity.
  - intros H. inversion H. auto.
Qed.

Lemma entry_eqb_refl (a : Entry) : entry_eqb a a = true.
Proof. apply entry_eqb_eq. reflexivity. Qed.

Lemma entry_eqb_neq (a b : Entry) : a <> b -> entry_eqb a b = false.
Proof.
  intros H. destruct (entry_eqb a b) eqn:E; [|reflexivity].
  apply entry_eqb_eq in E. contradiction.
Qed.

Module DequeFacts.

Lemma remove_first (m : Entry) (l1 l2 : list Entry) :
  ~ In m l1 -> Deque.remove m (l1 ++ m :: l2) = Some (l1 ++ l2).
Proof.
  induction l1 as [|y l1 IH]; simpl; intros Hn.
  - rewrite entry_eqb_refl. reflexivity.
  - rewrite entry_eqb_neq by (intros ->; apply Hn; now left).
    rewrite IH by (intros Hin; apply Hn; now right). reflexivity.
Qed.

Lemma length_append (n : nat) (d : list Entry) (x : Entry) :
  (List.length d <= n -> List.length (Deque.append n d x) <= n)%nat.
Proof.
  intros H. unfold Deque.append.
  destruct (Nat.ltb_spec n (List.length (d ++ [x]))) as [Hlt|Hge].
  - destruct d as [|y d]; simpl in *.
    + lia.
    + rewrite length_app in *. simpl in *. lia.
  - exact Hge.
Qed.

Lemma length_extend (n : nat) (xs d : list Entry) :
  (List.length d <= n -> List.length (Deque.extend n d xs) <= n)%nat.
Proof.
  unfold Deque.extend. revert d.
  induction xs as [|x xs IH]; simpl; intros d H.
  - exact H.
  - apply IH, length_append, H.
Qed.

Lemma append_most_recent (n : nat) (d : list Entry) (x : Entry) :
  (List.length d <= n)%nat ->
  Deque.append n d x = most_recent n (d ++ [x]).
Proof.
  intros H. unfold Deque.append, most_recent.
  rewrite length_app. simpl.
  destruct (Nat.ltb_spec n (List.length d + 1)) as [Hlt|Hge].
  - replace (List.length d + 1 - n)%nat with 1%nat by lia.
    destruct (d ++ [x]); reflexivity.
  - replace (List.length d + 1 - n)%nat with 0%nat by lia. reflexivity.
Qed.

Lemma most_recent_step (n : nat) (l : list Entry) (x : Entry) :
  most_recent n (most_recent n l ++ [x]) = most_recent n (l ++ [x]).
Proof.
  unfold most_recent.
  rewrite !length_app, length_skipn. simpl.
  destruct (Nat.le_gt_cases (List.length l) n) as [Hle|Hgt].
  - replace (List.length l - n)%nat with 0%nat by lia. simpl.
    rewrite Nat.sub_0_r. reflexivity.
  - replace (List.length l - (List.length l - n) + 1 - n)%nat
      with 1%nat by lia.
    replace (List.length l + 1 - n)%nat
      with (1 + (List.length l - n))%nat by lia.
    rewrite <- skipn_skipn. f_equal.
    rewrite skipn_app.
    replace (List.length l - n - List.length l)%nat with 0%nat by lia.
    reflexivity.
Qed.

Lemma most_recent_all (n : nat) (l : list Entry) :
  (List.length l <= n)%nat -> most_recent n l = l.
Proof.
  intros H. unfold most_recent.
  replace (List.length l - n)%nat with 0%nat by lia. reflexivity.
Qed.

Lemma length_most_recent (n : nat) (l : list Entry) :
  List.length (most_recent n l) = Nat.min n (List.length l).
Proof. unfold most_recent. rewrite length_skipn. lia. Qed.

(** Extending keeps the most recent [n] of everything appended. *)
Lemma extend_most_recent (n : nat) (xs d : list Entry) :
  (List.length d <= n)%nat ->
  Deque.extend n d xs = most_recent n (d ++ xs).
Proof.
  intros H. rewrite <- (most_recent_all n d H) at 1. clear H.
  unfold Deque.extend. revert d.
  induction xs as [|x xs IH]; intros d; simpl.
  - rewrite app_nil_r. reflexivity.
  - rewrite append_most_recent
      by (rewrite length_most_recent; lia).
    rewrite most_recent_step, IH, <- app_assoc. reflexivity.
Qed.

End DequeFacts.

(** ** Counting occurrences *)

Lemma occurrences_app (m : Entry) (l1 l2 : list Entry) :
  occurrences m (l1 ++ l2) = (occurrences m l1 + occurrences m l2)%nat.
Proof. apply count_occ_app. Qed.

Lemma occurrences_In (m : Entry) (l : list Entry) :
  In m l <-> (0 < occurrences m l)%nat.
Proof. unfold occurrences. rewrite (count_occ_In entry_eq_dec). lia. Qed.

Lemma occurrences_tl (m : Entry) (l : list Entry) :
  (occurrences m (tl l) <= occurrences m l)%nat.
Proof.
  destruct l as [|y l]; simpl; [lia|].
  unfold occurrences. simpl. destruct (entry_eq_dec y m); lia.
Qed.

Lemma occurrences_filter (f : Entry -> bool) (m : Entry) (l : list Entry) :
  (occurrences m (filter f l) <= occurrences m l)%nat.
Proof.
  unfold occurrences. induction l as [|y l IH]; simpl; [lia|].
  destruct (f y); simpl; destruct (entry_eq_dec y m); lia.
Qed.

Lemma occurrences_rev (m : Entry) (l : list Entry) :
  occurrences m (rev l) = occurrences m l.
Proof. apply count_occ_rev. Qed.

Lemma occurrences_append (n : nat) (m x : Entry) (d : list Entry) :
  (occurrences m (Deque.append n d x)
   <= occurrences m d + occurrences m [x])%nat.
Proof.
  unfold Deque.append. rewrite <- occurrences_app.
  destruct (n <? List.length (d ++ [x]))%nat; [apply occurrences_tl|lia].
Qed.

Lemma occurrences_extend (n : nat) (m : Entry) (xs d : list Entry) :
  (occurrences m (Deque.extend n d xs)
   <= occurrences m d + occurrences m xs)%nat.
Proof.
  unfold Deque.extend. revert d.
  induction xs as [|x xs IH]; intros d; cbn [fold_left].
  - lia.
  - specialize (IH (Deque.append n d x)).
    pose proof (occurrences_append n m x d) as Ha.
    change (x :: xs) with ([x] ++ xs). rewrite occurrences_app. lia.
Qed.

Lemma occurrences_middle (m x : Entry) (l1 l2 : list Entry) :
  occurrences m (l1 ++ x :: l2)
  = (occurrences m (l1 ++ l2) + occurrences m [x])%nat.
Proof.
  change (x :: l2) with ([x] ++ l2). rewrite !occurrences_app. lia.
Qed.

Lemma occurrences_self (m : Entry) : occurrences m [m] = 1%nat.
Proof.
  unfold occurrences. simpl. destruct (entry_eq_dec m m); congruence.
Qed.

(** ** Searching from the right end *)

Lemma find_last_some (P : Entry -> bool) (l : list Entry) (m : Entry) :
  find P (rev l) = Some m ->
  exists l1 l2, l = l1 ++ m :: l2 /\ P m = true /\
                (forall x, In x l2 -> P x = false).
Proof.
  induction l as [|x l IH] using rev_ind; simpl.
  - discriminate.
  - rewrite rev_unit. simpl. destruct (P x) eqn:Px.
    + intros [= ->]. exists l, []. rewrite Px. repeat split.
      intros y [].
    + intros H. destruct (IH H) as (l1 & l2 & -> & Pm & Hl2).
      exists l1, (l2 ++ [x]). rewrite <- app_assoc. repeat split; auto.
      intros y Hy. apply in_app_or in Hy. destruct Hy as [Hy|[<-|[]]]; auto.
Qed.

Lemma find_last_none (P : Entry -> bool) (l : list Entry) :
  find P (rev l) = None -> forall x, In x l -> P x = false.
Proof.
  intros H x Hx. apply (find_none P (rev l) H). apply in_rev in Hx. exact Hx.
Qed.

Lemma find_last_absent (P : Entry -> bool) (l : list Entry) :
  (forall x, In x l -> P x = false) -> find P (rev l) = None.
Proof.
  intros H. destruct (find P (rev l)) as [m|] eqn:E; [|reflexivity].
  apply find_some in E. destruct E as [Hin Pm].
  apply in_rev in Hin. rewrite (H m Hin) in Pm. discriminate.
Qed.

Lemma filter_absent (P : Entry -> bool) (l : list Entry) :
  (forall x, In x l -> P x = false) ->
  filter P l = [] /\ filter (fun x => negb (P x)) l = l.
Proof.
  induction l as [|y l IH]; simpl; intros H; [auto|].
  rewrite (H y) by now left. simpl.
  destruct IH as [-> ->]; [intros x Hx; apply H; now right|]. auto.
Qed.

(** ** States *)

Lemma set_log_log (st : RobotController) : set_log st (log st) = st.
Proof. destruct st. reflexivity. Qed.

Lemma set_log_twice (st : RobotController) (l l' : list Entry) :
  set_log (set_log st l) l' = set_log st l'.
Proof. reflexivity. Qed.

Lemma evolves_refl (st : RobotController) : evolves st st.
Proof. split; auto. Qed.

Lemma evolves_trans (st1 st2 st3 : RobotController) :
  evolves st1 st2 -> evolves st2 st3 -> evolves st1 st3.
Proof.
  intros [S1 E1 B1] [S2 E2 B2]. split.
  - congruence.
  - intros m. specialize (E1 m). specialize (E2 m). lia.
  - auto.
Qed.

(** Changing the deque alone, to a list that has no new entry and is
    not longer. *)
Lemma evolves_set_log (st : RobotController) (l : list Entry) :
  (forall m, (occurrences m l <= occurrences m (log st))%nat) ->
  (List.length l <= List.length (log st))%nat ->
  evolves st (set_log st l).
Proof.
  intros Hocc Hlen. split.
  - reflexivity.
  - intros m. unfold all_entries. simpl. rewrite !occurrences_app.
    specialize (Hocc m). lia.
  - unfold maxlen. simpl. lia.
Qed.

(** ** Soundness of the monad's combinators *)

Lemma sound_ret {A} (a : A) : sound (ret a).
Proof. intros st r st' ev [= _ <- _]. apply evolves_refl. Qed.

Lemma sound_raise {A} (e : exn) : sound (@raise A e).
Proof. intros st r st' ev [= _ <- _]. apply evolves_refl. Qed.

Lemma sound_emit (evs : list event) : sound (emit evs).
Proof. intros st r st' ev [= _ <- _]. apply evolves_refl. Qed.

Lemma sound_bind {A B} (m : M A) (k : A -> M B) :
  sound m -> (forall a, sound (k a)) -> sound (bind m k).
Proof.
  intros Hm Hk st r st' ev. unfold bind.
  destruct (m st) as [[[a|e] st1] ev1] eqn:Em.
  - destruct (k a st1) as [[r2 st2] ev2] eqn:Ek. intros [= _ <- _].
    eapply evolves_trans; [eapply Hm, Em|eapply Hk, Ek].
  - intros [= _ <- _]. eapply Hm, Em.
Qed.

Lemma sound_try {A} (body handler : M A) :
  sound body -> sound handler -> sound (try_except_RuntimeError body handler).
Proof.
  intros Hb Hh st r st' ev. unfold try_except_RuntimeError.
  destruct (body st) as [[[a|e] st1] ev1] eqn:Eb.
  - intros [= _ <- _]. eapply Hb, Eb.
  - destruct e; try (intros [= _ <- _]; eapply Hb, Eb).
    destruct (handler st1) as [[r2 st2] ev2] eqn:Eh. intros [= _ <- _].
    eapply evolves_trans; [eapply Hb, Eb|eapply Hh, Eh].
Qed.

Lemma sound_for_each {A} (xs : list A) (body : A -> M unit) :
  (forall x, sound (body x)) -> sound (for_each xs body).
Proof.
  intros Hb. induction xs as [|x xs IH]; simpl.
  - apply sound_ret.
  - apply sound_bind; auto.
Qed.

Lemma sound_if {A} (b : bool) (m1 m2 : M A) :
  sound m1 -> sound m2 -> sound (if b then m1 else m2).
Proof. destruct b; auto. Qed.

Create HintDb sound.
#[local] Hint Resolve sound_ret sound_raise sound_emit sound_bind sound_try
  sound_for_each sound_if : sound.

(** ** The methods of MecademicLog *)

Lemma update_log_eq (w : bool) (t : option Q) (st : RobotController) :
  update_log w t st = (Ok tt, refreshed st, refresh_events w t st).
Proof.
  unfold refreshed, refresh_events, state_after, update_log.
  destruct (get_last_messages (incoming st)) as [[|x messages] rest];
    reflexivity.
Qed.

Lemma refreshed_log (st : RobotController) :
  (exists rest, incoming st = [] :: rest /\ refreshed st = set_incoming st rest)
  \/ (incoming st = [] /\ refreshed st = set_incoming st [])
  \/ (exists x xs rest, incoming st = (x :: xs) :: rest /\
       refreshed st
       = set_log (set_incoming st rest)
           (Deque.extend (maxlen st) (log st) (x :: xs))).
Proof.
  unfold refreshed, state_after, update_log.
  destruct (incoming st) as [|[|x xs] rest]; simpl.
  - right. left. auto.
  - left. exists rest. auto.
  - right. right. exists x, xs, rest. auto.
Qed.

Lemma sound_update_log (w : bool) (t : option Q) : sound (update_log w t).
Proof.
  intros st r st' ev. rewrite update_log_eq. intros [= _ <- _].
  destruct (refreshed_log st)
    as [(rest & Hi & ->)|[(Hi & ->)|(x & xs & rest & Hi & ->)]].
  - split; auto. intros m. unfold all_entries.
    cbn [log incoming set_incoming]. rewrite Hi. cbn [concat app]. lia.
  - split; auto. intros m. unfold all_entries.
    cbn [log incoming set_incoming]. rewrite Hi. cbn [concat]. lia.
  - split.
    + reflexivity.
    + intros m. unfold all_entries.
      cbn [log incoming set_log set_incoming]. rewrite Hi.
      cbn [concat]. rewrite !occurrences_app.
      pose proof (occurrences_extend (maxlen st) m (x :: xs) (log st)). lia.
    + intros H. apply DequeFacts.length_extend, H.
Qed.

Lemma refresh_events_reads (w : bool) (t : option Q) (st : RobotController) :
  count_reads (refresh_events w t st) = 1%nat
  /\ count_sends (refresh_events w t st) = 0%nat.
Proof.
  unfold refresh_events, update_log.
  destruct (get_last_messages (incoming st)) as [[|x xs] rest];
    destruct w; destruct (on_new_messages_received (settings st));
    split; reflexivity.
Qed.

Lemma sound_log_reverse : sound log_reverse.
Proof.
  intros st r st' ev [= _ <- _]. apply evolves_set_log.
  - intros m. rewrite occurrences_rev. lia.
  - rewrite length_rev. lia.
Qed.

Lemma remove_some (x : Entry) (d d' : list Entry) :
  Deque.remove x d = Some d' ->
  exists l1 l2, d = l1 ++ x :: l2 /\ d' = l1 ++ l2.
Proof.
  revert d'. induction d as [|y d IH]; simpl; intros d'.
  - discriminate.
  - destruct (entry_eqb y x) eqn:E.
    + intros [= <-]. apply entry_eqb_eq in E. subst y.
      exists [], d. auto.
    + destruct (Deque.remove x d) as [d0|]; simpl; [|discriminate].
      intros [= <-]. destruct (IH d0 eq_refl) as (l1 & l2 & -> & ->).
      exists (y :: l1), l2. auto.
Qed.

Lemma sound_log_remove (x : Entry) : sound (log_remove x).
Proof.
  intros st r st' ev. unfold log_remove.
  destruct (Deque.remove x (log st)) as [d|] eqn:E.
  - intros [= _ <- _]. apply remove_some in E.
    destruct E as (l1 & l2 & E & ->). apply evolves_set_log.
    + intros m. rewrite E, occurrences_middle. lia.
    + rewrite E, !length_app. simpl. lia.
  - intros [= _ <- _]. apply evolves_refl.
Qed.

(** Removing, one after the other, the entries collected by the scan
    deletes exactly the entries with the code. *)
Lemma for_each_log_remove (code : string) (st : RobotController)
  (l pre : list Entry) :
  (forall x, In x pre -> startswith code x = false) ->
  for_each (filter (startswith code) l) log_remove (set_log st (pre ++ l))
  = (Ok tt, set_log st (pre ++ without_code code l), []).
Proof.
  revert pre. induction l as [|a l IH]; intros pre Hpre.
  - reflexivity.
  - cbn [filter without_code]. destruct (startswith code a) eqn:Pa.
    + cbn [negb for_each]. unfold bind at 1. unfold log_remove at 1.
      cbn [log set_log].
      rewrite DequeFacts.remove_first.
      2:{ intros Hin. rewrite (Hpre a Hin) in Pa. discriminate. }
      rewrite set_log_twice, IH by exact Hpre. reflexivity.
    + cbn [negb].
      replace (pre ++ a :: l) with ((pre ++ [a]) ++ l)
        by (rewrite <- app_assoc; reflexivity).
      rewrite IH.
      * unfold without_code. rewrite <- app_assoc. reflexivity.
      * intros x Hx. apply in_app_or in Hx.
        destruct Hx as [Hx|[<-|[]]]; auto.
Qed.

Lemma remove_all_code_eq (code : string) (st : RobotController) :
  remove_all_code code st
  = (Ok tt, set_log st (without_code code (log st)), []).
Proof.
  unfold remove_all_code.
  rewrite <- (set_log_log st) at 2.
  apply (for_each_log_remove code st (log st) []). intros x [].
Qed.

Lemma sound_remove_all_code (code : string) : sound (remove_all_code code).
Proof.
  intros st r st' ev. rewrite remove_all_code_eq. intros [= _ <- _].
  apply evolves_set_log.
  - intros m. apply occurrences_filter.
  - apply filter_length_le.
Qed.

(** What [get_last_code_occurance] returns and leaves, in full. *)
Lemma get_last_code_occurance_spec (code : string) (delete_others : bool)
  (st : RobotController) :
  ((forall x, In x (log st) -> startswith code x = false) /\
   get_last_code_occurance code delete_others st = (Ok None, st, []))
  \/
  (exists l1 m l2,
     log st = l1 ++ m :: l2 /\ startswith code m = true /\
     (forall x, In x l2 -> startswith code x = false) /\
     get_last_code_occurance code delete_others st
     = (Ok (Some m),
        set_log st (if delete_others then without_code code (log st)
                    else rev l2 ++ rev l1),
        [])).
Proof.
  unfold get_last_code_occurance.
  destruct (find (startswith code) (rev (log st))) as [m|] eqn:E.
  - right. destruct (find_last_some _ _ _ E) as (l1 & l2 & Hl & Pm & Hl2).
    exists l1, m, l2. repeat split; auto.
    destruct delete_others.
    + unfold bind. rewrite remove_all_code_eq. reflexivity.
    + unfold bind, log_reverse, log_remove. cbn [log set_log].
      rewrite Hl, rev_app_distr. cbn [rev]. rewrite <- app_assoc.
      cbn [app]. rewrite DequeFacts.remove_first.
      * reflexivity.
      * intros Hin. apply in_rev in Hin.
        rewrite (Hl2 m Hin) in Pm. discriminate.
  - left. split; [|reflexivity]. apply find_last_none, E.
Qed.

Lemma sound_get_last_code_occurance (code : string) (d : bool) :
  sound (get_last_code_occurance code d).
Proof.
  intros st r st' ev H.
  destruct (get_last_code_occurance_spec code d st)
    as [[_ E]|(l1 & m & l2 & Hl & _ & _ & E)];
    rewrite E in H; injection H as _ <- _.
  - apply evolves_refl.
  - apply evolves_set_log; destruct d.
    + intros x. apply occurrences_filter.
    + intros x. rewrite Hl, occurrences_middle, !occurrences_app,
        !occurrences_rev. lia.
    + apply filter_length_le.
    + rewrite Hl, !length_app, !length_rev. simpl. lia.
Qed.

Lemma sound_get_first_message : sound get_first_message.
Proof.
  intros st r st' ev. unfold get_first_message, Deque.popleft.
  destruct (log st) as [|x d] eqn:E; intros [= _ <- _].
  - apply evolves_refl.
  - apply evolves_set_log; rewrite E.
    + intros m. apply (occurrences_tl m (x :: d)).
    + simpl. lia.
Qed.

Lemma sound_get_last_message : sound get_last_message.
Proof.
  intros st r st' ev. unfold get_last_message, Deque.pop.
  destruct (rev (log st)) as [|x d] eqn:E; intros [= _ <- _].
  - apply evolves_refl.
  - apply evolves_set_log.
    + intros m. rewrite occurrences_rev, <- (occurrences_rev m (log st)), E.
      apply (occurrences_tl m (x :: d)).
    + rewrite length_rev, <- (length_rev (log st)), E. simpl. lia.
Qed.

Lemma sound_clear_log : sound clear_log.
Proof.
  intros st r st' ev [= _ <- _]. apply evolves_set_log.
  - intros m. unfold occurrences. simpl. lia.
  - simpl. lia.
Qed.

Lemma sound_get_all_messages (code : string) : sound (get_all_messages code).
Proof.
  intros st r st' ev. unfold get_all_messages.
  apply sound_bind; [apply sound_clear_log|intros; apply sound_ret].
Qed.

#[local] Hint Resolve sound_update_log sound_log_reverse sound_log_remove
  sound_remove_all_code sound_get_last_code_occurance
  sound_get_first_message sound_get_last_message sound_clear_log
  sound_get_all_messages : sound.

(** ** The message log: search, deletion and the bound *)

(** With [delete_others = False] and a match, the matched entry is
    returned and the deque is left reversed, without it. *)
Lemma get_last_code_occurance_keep_others (code : string)
  (st : RobotController) (x : Entry) :
  In x (log st) -> startswith code x = true ->
  exists l1 m l2,
    log st = l1 ++ m :: l2 /\ startswith code m = true /\
    (forall y, In y l2 -> startswith code y = false) /\
    get_last_code_occurance code false st
    = (Ok (Some m), set_log st (rev (l1 ++ l2)), []).
Proof.
  intros Hin Px.
  destruct (get_last_code_occurance_spec code false st)
    as [[Hnone _]|(l1 & m & l2 & Hl & Pm & Hl2 & E)].
  - rewrite (Hnone x Hin) in Px. discriminate.
  - exists l1, m, l2. rewrite rev_app_distr. auto.
Qed.

(** C1: at the log [2000; 2001; 1005], searching the prefix ["1"] with
    [delete_others = False] returns the entry 1005 and removes it, one
    entry with the prefix fewer remains, but the two other entries are
    left in reversed order (newest first), not in their original
    oldest-first order.  As a consequence, on the log
    [1001; 1002; 1003] a second such search returns the oldest entry
    1001 and not 1002. *)
Theorem get_last_code_occurance_leaves_log_reversed :
  let before := [("2000", "a"); ("2001", "b"); ("1005", "c")] in
  let after := [("2001", "b"); ("2000", "a")] in
  get_last_code_occurance "1" false (controller before [])
  = (Ok (Some ("1005", "c")), controller after [], [])
  /\ S (count_code "1" after) = count_code "1" before
  /\ after <> [("2000", "a"); ("2001", "b")]
  /\ (first <- get_last_code_occurance "1" false ;;
      second <- get_last_code_occurance "1" false ;;
      ret (first, second))
       (controller [("1001", "a"); ("1002", "b"); ("1003", "c")] [])
     = (Ok (Some ("1003", "c"), Some ("1001", "a")),
        controller [("1002", "b")] [], []).
Proof.
  cbv zeta. split; [reflexivity|]. split; [reflexivity|].
  split; [discriminate|reflexivity].
Qed.

(** C4: a fresh log receives [1001; 1002; 1003].  A first search for
    the prefix ["1"] with [delete_others = False] returns 1003 and
    leaves the deque as [1002; 1001], reversed.  The matching entry
    appended most recently is now 1002, but a second search, with
    either value of [delete_others], returns 1001, the one appended
    first.  [handle_errors] makes this very search: caught and
    repeated, it reports 1003 and then 1001. *)
Theorem get_last_code_occurance_returns_oldest_after_search :
  let e := fun c : string => (c, "") in
  let fresh :=
    new_controller default_settings [[e "1001"; e "1002"; e "1003"]] in
  let searched :=
    state_after (update_log false None ;;
                 get_last_code_occurance "1" false) fresh in
  let twice := fun delete_others : bool =>
    update_log false None ;;
    first <- get_last_code_occurance "1" false ;;
    second <- get_last_code_occurance "1" delete_others ;;
    ret (first, second) in
  log (state_after (update_log false None) fresh)
  = [e "1001"; e "1002"; e "1003"]
  /\ log searched = [e "1002"; e "1001"]
  /\ fst (fst (twice false fresh)) = Ok (Some (e "1003"), Some (e "1001"))
  /\ fst (fst (twice true fresh)) = Ok (Some (e "1003"), Some (e "1001"))
  /\ fst (fst ((update_log false None ;;
                try_except_RuntimeError (handle_errors "ClearMotion")
                  (ret tt) ;;
                handle_errors "ClearMotion") fresh))
     = Raise (RuntimeError (ErrorInLog "ClearMotion" (e "1001"))).
Proof.
  cbv zeta. repeat split; reflexivity.
Qed.

Lemma evolves_run_log_operation (op : log_operation) (st : RobotController) :
  evolves st (run_log_operation op st).
Proof.
  destruct op; unfold run_log_operation, state_after;
    match goal with
    | |- evolves _ (snd (fst (?m st))) =>
        destruct (m st) as [[r st'] ev] eqn:E;
        assert (Hs : sound m) by auto with sound;
        exact (Hs st r st' ev E)
    end.
Qed.

Lemma evolves_run_log_operations (ops : list log_operation)
  (st : RobotController) :
  evolves st (run_log_operations ops st).
Proof.
  unfold run_log_operations. revert st.
  induction ops as [|op ops IH]; intros st; cbn [fold_left].
  - apply evolves_refl.
  - eapply evolves_trans; [apply evolves_run_log_operation|apply IH].
Qed.

(** From a fresh log, whatever is called and received, the deque
    never holds more than [log_size] entries. *)
Lemma new_controller_within_capacity (s : Settings)
  (i : list (list Entry)) (ops : list log_operation) :
  (List.length (log (run_log_operations ops (new_controller s i)))
   <= log_size s)%nat.
Proof.
  destruct (evolves_run_log_operations ops (new_controller s i))
    as [Hs _ Hb].
  unfold maxlen in Hb. rewrite Hs in Hb. apply Hb. cbn. lia.
Qed.

(** C3: a fresh log of capacity 3 receives [1001; 2000; 1002].  A
    search for the prefix ["1"] with [delete_others = False] returns
    1002 and leaves the deque as [2000; 1001], reversed.  The next
    refresh receives two entries: the deque stays within its capacity,
    but the entry evicted is 2000 and not 1001, which was appended
    before it, so what is left is [1001; 3000; 3001] and not the three
    entries appended most recently, [2000; 3000; 3001]. *)
Theorem update_log_evicts_newer_entry_after_search :
  let e := fun c : string => (c, "") in
  let fresh :=
    small_controller 3 []
      [[e "1001"; e "2000"; e "1002"]; [e "3000"; e "3001"]] in
  let search :=
    update_log false None ;; get_last_code_occurance "1" false in
  let run :=
    found <- search ;; update_log false None ;; ret found in
  fresh = new_controller (settings fresh) (incoming fresh)
  /\ log (state_after (update_log false None) fresh)
     = [e "1001"; e "2000"; e "1002"]
  /\ log (state_after search fresh) = [e "2000"; e "1001"]
  /\ fst (fst (run fresh)) = Ok (Some (e "1002"))
  /\ log (state_after run fresh) = [e "1001"; e "3000"; e "3001"]
  /\ log (state_after run fresh) <> [e "2000"; e "3000"; e "3001"]
  /\ (List.length (log (state_after run fresh)) <= maxlen fresh)%nat.
Proof.
  cbv zeta. repeat split; try reflexivity. discriminate.
Qed.

(** ** The checks of RobotController *)

Lemma handle_specific_error_spec (code method_str : string)
  (st : RobotController) :
  ((forall x, In x (log st) -> startswith code x = false) /\
   handle_specific_error code method_str st = (Ok tt, st, []))
  \/
  (exists m, In m (log st) /\ startswith code m = true /\
     handle_specific_error code method_str st
     = (Raise (RuntimeError (ErrorInLog method_str m)),
        set_log st (without_code code (log st)), [])).
Proof.
  unfold handle_specific_error, bind.
  destruct (get_last_code_occurance_spec code true st)
    as [[Hnone E]|(l1 & m & l2 & Hl & Pm & _ & E)]; rewrite E.
  - left. auto.
  - right. exists m. repeat split; auto.
    rewrite Hl. apply in_elt.
Qed.

(** The entry [handle_specific_error] fails on is the last one of the
    log that carries the code. *)
Lemma handle_specific_error_last (code method_str : string)
  (st : RobotController) :
  ((forall x, In x (log st) -> startswith code x = false) /\
   handle_specific_error code method_str st = (Ok tt, st, []))
  \/
  (exists l1 m l2,
     log st = l1 ++ m :: l2 /\ startswith code m = true /\
     (forall x, In x l2 -> startswith code x = false) /\
     handle_specific_error code method_str st
     = (Raise (RuntimeError (ErrorInLog method_str m)),
        set_log st (without_code code (log st)), [])).
Proof.
  unfold handle_specific_error, bind.
  destruct (get_last_code_occurance_spec code true st)
    as [[Hnone E]|(l1 & m & l2 & Hl & Pm & Hl2 & E)]; rewrite E.
  - left. auto.
  - right. exists l1, m, l2. auto.
Qed.

Lemma handle_errors_spec (method_str : string) (st : RobotController) :
  ((forall x, In x (log st) -> startswith "1" x = false) /\
   handle_errors method_str st = (Ok tt, st, []))
  \/
  (exists l1 m l2,
     log st = l1 ++ m :: l2 /\ startswith "1" m = true /\
     (forall x, In x l2 -> startswith "1" x = false) /\
     handle_errors method_str st
     = (Raise (RuntimeError (ErrorInLog method_str m)),
        set_log st (rev l2 ++ rev l1), [])).
Proof.
  unfold handle_errors, bind.
  destruct (get_last_code_occurance_spec "1" false st)
    as [[Hnone E]|(l1 & m & l2 & Hl & Pm & Hl2 & E)]; rewrite E.
  - left. auto.
  - right. exists l1, m, l2. auto.
Qed.

Lemma check_response_loop_spec (codes all_codes : list string)
  (method_str : string) (st : RobotController) :
  (none_with codes (log st) /\
   check_response_loop codes all_codes method_str st
   = (Raise (RuntimeError (CodeNotFound method_str all_codes)), st, []))
  \/
  (exists c m, In c codes /\ In m (log st) /\ startswith c m = true /\
     check_response_loop codes all_codes method_str st
     = (Ok tt, set_log st (without_code c (log st)), [])).
Proof.
  induction codes as [|code codes IH]; cbn [check_response_loop].
  - left. split; [intros c m []|reflexivity].
  - unfold bind.
    destruct (get_last_code_occurance_spec code true st)
      as [[Hnone E]|(l1 & m & l2 & Hl & Pm & _ & E)]; rewrite E.
    + destruct IH as [[Hn IH]|(c & m & Hc & Hm & Pm & IH)]; rewrite IH.
      * left. split; [|reflexivity].
        intros c m [<-|Hc] Hm; [apply Hnone|apply (Hn c m)]; auto.
      * right. exists c, m. repeat split; auto. now right.
    + right. exists code, m. repeat split; auto.
      * now left.
      * rewrite Hl. apply in_elt.
Qed.

Lemma for_each_handle_specific_error_spec (errors_code : list string)
  (method_str : string) (st : RobotController) :
  (none_with errors_code (log st) /\
   for_each errors_code (fun code => handle_specific_error code method_str) st
   = (Ok tt, st, []))
  \/
  (exists c m, In c errors_code /\ In m (log st) /\ startswith c m = true /\
     for_each errors_code (fun code => handle_specific_error code method_str) st
     = (Raise (RuntimeError (ErrorInLog method_str m)),
        set_log st (without_code c (log st)), [])).
Proof.
  induction errors_code as [|code codes IH]; cbn [for_each].
  - left. split; [intros c m []|reflexivity].
  - unfold bind.
    destruct (handle_specific_error_spec code method_str st)
      as [[Hnone E]|(m & Hm & Pm & E)]; rewrite E.
    + destruct IH as [[Hn IH]|(c & m & Hc & Hm & Pm & IH)]; rewrite IH.
      * left. split; [|reflexivity].
        intros c m [<-|Hc] Hm; [apply Hnone|apply (Hn c m)]; auto.
      * right. exists c, m.
        split; [now right|]. split; [exact Hm|]. split; [exact Pm|].
        reflexivity.
    + right. exists code, m.
      split; [now left|]. split; [exact Hm|]. split; [exact Pm|].
      reflexivity.
Qed.

Lemma for_each_remove_all_code_eq (codes : list string)
  (st : RobotController) :
  for_each codes remove_all_code st = (Ok tt, prepared_log codes st, []).
Proof.
  unfold prepared_log, state_after. revert st.
  induction codes as [|code codes IH]; intros st; cbn [for_each].
  - reflexivity.
  - unfold bind. rewrite remove_all_code_eq, IH. reflexivity.
Qed.

Lemma check_response_spec (codes : list string) (method_str : string)
  (st : RobotController) :
  (codes = [] /\ check_response codes method_str st = (Ok tt, st, []))
  \/
  (codes <> [] /\ none_with codes (log st) /\
   check_response codes method_str st
   = (Raise (RuntimeError (CodeNotFound method_str codes)), st, []))
  \/
  (exists c m, In c codes /\ In m (log st) /\ startswith c m = true /\
     check_response codes method_str st
     = (Ok tt, set_log st (without_code c (log st)), [])).
Proof.
  destruct codes as [|code codes].
  - left. auto.
  - right. unfold check_response.
    destruct (check_response_loop_spec (code :: codes) (code :: codes)
                method_str st) as [[Hn E]|H].
    + left. repeat split; auto. discriminate.
    + right. exact H.
Qed.

(** ** The verified protocol *)

Lemma checks_after_send_outcome (method_str : string)
  (errors_code responses_code : list string) (hae w : bool)
  (t : option Q) (st : RobotController)
  (r : result unit) (st' : RobotController) (ev : list event) :
  checks_after_send method_str errors_code responses_code hae w t st
  = (r, st', ev) ->
  check_outcome method_str errors_code responses_code hae w t st r st' ev.
Proof.
  unfold checks_after_send. unfold bind at 1.
  destruct (for_each_handle_specific_error_spec errors_code method_str st)
    as [[_ E]|(c & m & Hc & Hm & Pm & E)]; rewrite E; clear E.
  2:{ intros [= <- <- <-]. now apply SpecificErrorFound with (c := c). }
  unfold bind at 1.
  assert (Hgen :
    (if hae then handle_errors method_str else ret tt) st = (Ok tt, st, [])
    \/ exists l1 m l2, hae = true /\ log st = l1 ++ m :: l2 /\
         startswith "1" m = true /\
         (if hae then handle_errors method_str else ret tt) st
         = (Raise (RuntimeError (ErrorInLog method_str m)),
            set_log st (rev l2 ++ rev l1), [])).
  { destruct hae; [|left; reflexivity].
    destruct (handle_errors_spec method_str st)
      as [[_ E]|(l1 & m & l2 & Hl & Pm & _ & E)].
    - left. exact E.
    - right. exists l1, m, l2. auto. }
  destruct Hgen as [E|(l1 & m & l2 & Hh & Hl & Pm & E)]; rewrite E; clear E.
  2:{ intros [= <- <- <-]. now apply GenericErrorFound. }
  unfold try_except_RuntimeError.
  destruct (check_response_spec responses_code method_str st)
    as [[Hr E]|[(Hr & Hn & E)|(c & m & Hc & Hm & Pm & E)]]; rewrite E; clear E.
  - intros [= <- <- <-]. now apply NothingExpected.
  - unfold bind at 1. rewrite update_log_eq. unfold bind at 1.
    destruct (handle_errors_spec method_str (refreshed st))
      as [[_ E]|(l1 & m & l2 & Hl & Pm & _ & E)]; rewrite E; clear E.
    + destruct (check_response_spec responses_code method_str (refreshed st))
        as [[Hr' E]|[(_ & Hn' & E)|(c & m & Hc & Hm & Pm & E)]];
        rewrite E; clear E.
      * contradiction.
      * cbn [app]. rewrite !app_nil_r. intros [= <- <- <-].
        now apply RetryNotFound.
      * cbn [app]. rewrite !app_nil_r. intros [= <- <- <-].
        now apply RetryResponseFound with (m := m).
    + cbn [app]. rewrite !app_nil_r. intros [= <- <- <-].
      now apply RetryErrorFound.
  - intros [= <- <- <-]. now apply ResponseFound with (m := m).
Qed.

Lemma send_command_handled_unfold (cmd method_str : string)
  (codes_to_remove errors_code responses_code : list string)
  (hae w : bool) (t : option Q) (st : RobotController) :
  encodable (cmd ++ NUL) = true ->
  send_command_handled cmd method_str codes_to_remove errors_code
    responses_code hae w t st
  = match checks_after_send method_str errors_code responses_code hae w t
            (refreshed (prepared codes_to_remove st)) with
    | (r, st', ev') =>
        (r, st',
         refresh_events false None st
         ++ EvSend (cmd ++ NUL)
         :: refresh_events w t (prepared codes_to_remove st) ++ ev')
    end.
Proof.
  intros Henc. unfold send_command_handled.
  rewrite (send_string_command_ok cmd Henc).
  change (for_each errors_code
            (fun code => handle_specific_error code method_str) ;; _)
    with (checks_after_send method_str errors_code responses_code hae w t).
  unfold bind at 1. rewrite update_log_eq.
  unfold bind at 1. rewrite for_each_remove_all_code_eq.
  fold (prepared codes_to_remove st).
  unfold bind at 1. unfold emit.
  unfold bind at 1. rewrite update_log_eq.
  destruct (checks_after_send method_str errors_code responses_code hae w t
              (refreshed (prepared codes_to_remove st)))
    as [[r0 st0] ev0].
  reflexivity.
Qed.

(** A command that cannot be encoded is refused after the first
    refresh and the removal of the codes to forget: nothing is sent. *)
Lemma send_command_handled_refused (cmd method_str : string)
  (codes_to_remove errors_code responses_code : list string)
  (hae w : bool) (t : option Q) (st : RobotController) :
  encodable (cmd ++ NUL) = false ->
  send_command_handled cmd method_str codes_to_remove errors_code
    responses_code hae w t st
  = (Raise UnicodeEncodeError, prepared codes_to_remove st,
     refresh_events false None st).
Proof.
  intros Henc. unfold send_command_handled.
  rewrite (send_string_command_refused cmd Henc).
  unfold bind at 1. rewrite update_log_eq.
  unfold bind at 1. rewrite for_each_remove_all_code_eq.
  fold (prepared codes_to_remove st).
  unfold bind, raise. rewrite !app_nil_r. reflexivity.
Qed.

Lemma send_command_handled_outcome (cmd method_str : string)
  (codes_to_remove errors_code responses_code : list string)
  (hae w : bool) (t : option Q) (st : RobotController)
  (r : result unit) (st' : RobotController) (ev : list event) :
  encodable (cmd ++ NUL) = true ->
  send_command_handled cmd method_str codes_to_remove errors_code
    responses_code hae w t st = (r, st', ev) ->
  exists ev',
    check_outcome method_str errors_code responses_code hae w t
      (refreshed (prepared codes_to_remove st)) r st' ev' /\
    ev = refresh_events false None st
         ++ EvSend (cmd ++ NUL)
         :: refresh_events w t (prepared codes_to_remove st) ++ ev'.
Proof.
  intros Henc. rewrite (send_command_handled_unfold _ _ _ _ _ _ _ _ _ Henc).
  destruct (checks_after_send method_str errors_code responses_code hae w t
              (refreshed (prepared codes_to_remove st)))
    as [[r0 st0] ev0] eqn:E.
  intros [= <- <- <-]. exists ev0. split.
  - apply checks_after_send_outcome, E.
  - reflexivity.
Qed.

Lemma sound_handle_specific_error (code method_str : string) :
  sound (handle_specific_error code method_str).
Proof.
  unfold handle_specific_error. apply sound_bind; auto with sound.
  intros [m|]; auto with sound.
Qed.

Lemma sound_handle_errors (method_str : string) :
  sound (handle_errors method_str).
Proof.
  unfold handle_errors. apply sound_bind; auto with sound.
  intros [m|]; auto with sound.
Qed.

Lemma sound_check_response (codes : list string) (method_str : string) :
  sound (check_response codes method_str).
Proof.
  assert (H : forall cs all, sound (check_response_loop cs all method_str)).
  { induction cs as [|c cs IH]; intros all; cbn [check_response_loop].
    - auto with sound.
    - apply sound_bind; auto with sound. intros [m|]; auto with sound. }
  destruct codes; cbn [check_response]; auto with sound.
Qed.

Lemma sound_send_string_command (cmd : string) :
  sound (send_string_command cmd).
Proof.
  unfold send_string_command.
  destruct (encodable (cmd ++ NUL)); auto with sound.
Qed.

#[local] Hint Resolve sound_handle_specific_error sound_handle_errors
  sound_check_response sound_send_string_command : sound.

Lemma sound_send_command_handled (cmd method_str : string)
  (codes_to_remove errors_code responses_code : list string)
  (hae w : bool) (t : option Q) :
  sound (send_command_handled cmd method_str codes_to_remove errors_code
           responses_code hae w t).
Proof.
  unfold send_command_handled.
  repeat (apply sound_bind; [auto with sound|intros ?]).
  auto 10 with sound.
Qed.

#[local] Hint Resolve sound_send_command_handled : sound.

Lemma evolves_refreshed (st : RobotController) : evolves st (refreshed st).
Proof.
  apply (sound_update_log false None st (Ok tt) (refreshed st)
           (refresh_events false None st)), update_log_eq.
Qed.

Lemma evolves_prepared (codes : list string) (st : RobotController) :
  evolves st (prepared codes st).
Proof.
  eapply evolves_trans; [apply evolves_refreshed|].
  unfold prepared.
  assert (Hs : sound (for_each codes remove_all_code)) by auto with sound.
  exact (Hs _ _ _ _ (for_each_remove_all_code_eq codes (refreshed st))).
Qed.

(** An entry of a later log was held or still to come. *)
Lemma evolves_In (st st' : RobotController) (m : Entry) :
  evolves st st' -> In m (log st') -> In m (all_entries st).
Proof.
  intros [_ He _] Hin. apply occurrences_In.
  specialize (He m). unfold all_entries in He at 1.
  rewrite occurrences_app in He.
  apply occurrences_In in Hin. lia.
Qed.

Lemma evolves_none_with (codes : list string) (st st' : RobotController) :
  evolves st st' -> none_with codes (all_entries st) ->
  none_with codes (log st').
Proof.
  intros He Hn c m Hc Hm. apply (Hn c m Hc). eapply evolves_In; eauto.
Qed.

(** ** Events *)

Lemma count_reads_app (e1 e2 : list event) :
  count_reads (e1 ++ e2) = (count_reads e1 + count_reads e2)%nat.
Proof. unfold count_reads. rewrite filter_app, length_app. reflexivity. Qed.

Lemma count_sends_app (e1 e2 : list event) :
  count_sends (e1 ++ e2) = (count_sends e1 + count_sends e2)%nat.
Proof. unfold count_sends. rewrite filter_app, length_app. reflexivity. Qed.

Lemma refresh_events_split (w : bool) (t : option Q) (st : RobotController)
  (s : string) (rest : list event) :
  after_send (refresh_events w t st ++ EvSend s :: rest) = rest
  /\ before_send (refresh_events w t st ++ EvSend s :: rest)
     = refresh_events w t st.
Proof.
  unfold refresh_events, update_log.
  destruct (get_last_messages (incoming st)) as [[|x xs] rest'];
    destruct w; destruct (on_new_messages_received (settings st));
    split; reflexivity.
Qed.

(** The events of one refresh, written out. *)
Lemma refresh_events_eq (w : bool) (t : option Q) (st : RobotController) :
  refresh_events w t st
  = (if w then [EvWait t] else [])
    ++ EvRead (fst (get_last_messages (incoming st)))
    :: (match fst (get_last_messages (incoming st)) with
        | [] => []
        | messages =>
            if on_new_messages_received (settings st)
            then [EvNotify messages] else []
        end).
Proof.
  unfold refresh_events, update_log.
  destruct (get_last_messages (incoming st)) as [[|x xs] rest'];
    reflexivity.
Qed.

Lemma waits_app (e1 e2 : list event) : waits (e1 ++ e2) = waits e1 ++ waits e2.
Proof.
  induction e1 as [|[bytes|timeout|m|m] e1 IH]; cbn [app waits];
    [reflexivity|..]; rewrite IH; reflexivity.
Qed.

(** A refresh waits exactly when asked to, with the timeout given. *)
Lemma refresh_events_waits (w : bool) (t : option Q) (st : RobotController) :
  waits (refresh_events w t st) = if w then [t] else [].
Proof.
  rewrite refresh_events_eq.
  destruct (fst (get_last_messages (incoming st))) as [|x xs];
    destruct w; destruct (on_new_messages_received (settings st));
    reflexivity.
Qed.



(** C5: the call made by [ResetError] passes
    [handle_all_errors = False].  When the entries 1011 and 2005 arrive
    with the first refresh after the transmission the call succeeds;
    when the same entries arrive with the second refresh, the retry
    branch searches the prefix ["1"] all the same and the call fails on
    the entry 1011, although the expected response 2005 is in the log. *)
Theorem send_command_handled_retry_searches_generic_errors :
  let reset :=
    send_command_handled "ResetError" "ResetError" ["1"] ["1025"]
      ["2005"; "2006"] false true None in
  let arrived := [("1011", "x"); ("2005", "ok")] in
  fst (fst (reset (controller [] [[]; arrived]))) = Ok tt
  /\ reset (controller [] [[]; []; arrived])
     = (Raise (RuntimeError (ErrorInLog "ResetError" ("1011", "x"))),
        controller [("2005", "ok")] [],
        [EvRead []; EvSend ("ResetError" ++ NUL);
         EvWait None; EvRead []; EvWait None; EvRead arrived])
  /\ fst (fst (ResetError (controller [] [[]; []; arrived])))
     = Raise (RuntimeError (ErrorInLog "ResetError" ("1011", "x"))).
Proof. cbv zeta. repeat split; reflexivity. Qed.

(** C6: with an error entry in the log and the response in the next
    batch, [GetStatusRobot] returns the parsed status while [GetConf]
    fails on the error entry: it calls [handle_errors] before it looks
    for its response.  When no response arrives, [GetStatusRobot]
    transmits and refreshes twice and ends in the TypeError of
    subscripting [None]. *)
Theorem GetConf_fails_on_error_entry :
  let stale := [("1011", "x")] in
  fst (fst (GetStatusRobot true
              (controller stale [[("2007", "1,1,0,0,0,1,1")]])))
  = Ok [("as", 1%Z); ("hs", 1%Z); ("sm", 0%Z); ("es", 0%Z);
        ("pm", 0%Z); ("eob", 1%Z); ("eom", 1%Z)]
  /\ GetConf true (controller stale [[("2029", "1,-1,1")]])
     = (Raise (RuntimeError (ErrorInLog "GetConf" ("1011", "x"))),
        controller [("2029", "1,-1,1")] [],
        [EvSend ("GetConf" ++ NUL); EvWait None;
         EvRead [("2029", "1,-1,1")]])
  /\ fst (fst (GetConf true (controller [] [[("2029", "1,-1,1")]])))
     = Ok [("c1", 1%Z); ("c3", (-1)%Z); ("c5", 1%Z)]
  /\ GetStatusRobot true (controller stale [])
     = (Raise TypeError, controller stale [],
        [EvSend ("GetStatusRobot" ++ NUL); EvWait None; EvRead [];
         EvSend ("GetStatusRobot" ++ NUL); EvWait None; EvRead []]).
Proof. cbv zeta. repeat split; reflexivity. Qed.

(** A successful call with expected response codes has found one. *)
Lemma send_command_handled_ok_found (cmd method_str : string)
  (codes_to_remove errors_code responses_code : list string)
  (hae w : bool) (t : option Q) (st st' : RobotController)
  (ev : list event) :
  send_command_handled cmd method_str codes_to_remove errors_code
    responses_code hae w t st = (Ok tt, st', ev) ->
  responses_code <> [] ->
  exists c m, In c responses_code /\ In m (all_entries st) /\
              startswith c m = true.
Proof.
  intros H Hne.
  destruct (encodable (cmd ++ NUL)) eqn:Henc;
    [|rewrite (send_command_handled_refused _ _ _ _ _ _ _ _ _ Henc) in H;
      discriminate].
  apply send_command_handled_outcome in H; [|exact Henc].
  destruct H as (ev' & Hout & _).
  assert (E23 : evolves st (refreshed (prepared codes_to_remove st))).
  { eapply evolves_trans; [apply evolves_prepared|apply evolves_refreshed]. }
  remember (Ok tt) as r eqn:Hr.
  destruct Hout; try discriminate.
  - contradiction.
  - exists c, m. repeat split; auto.
    apply (evolves_In _ _ _ E23). assumption.
  - exists c, m. repeat split; auto.
    refine (evolves_In _ _ _ (evolves_trans _ _ _ E23 _) _);
      [apply evolves_refreshed|assumption].
Qed.

Lemma sound_SetEOB (e : pynum) : sound (SetEOB e).
Proof.
  unfold SetEOB. apply sound_bind; [|auto with sound].
  repeat apply sound_if; auto with sound.
Qed.

Lemma sound_SetEOM (e : pynum) : sound (SetEOM e).
Proof.
  unfold SetEOM. apply sound_bind; [|auto with sound].
  repeat apply sound_if; auto with sound.
Qed.




(** ** Motion commands *)

(** C8: with six joint angles [MoveJoints] first transmits
    [MoveJoints(a1,a2,a3,a4,a5,a6)] followed by one null byte, then
    waits for new messages with the motion timeout and reads once;
    nothing is read before the transmission, the call returns normally
    whatever the log holds, and the state it leaves is the one a
    refresh leaves: no entry is searched or consumed. *)
Theorem MoveJoints_sends_then_refreshes_once (a1 a2 a3 a4 a5 a6 : pynum)
  (st : RobotController) :
  let wire :=
    ("MoveJoints(" ++ str a1 ++ "," ++ str a2 ++ "," ++ str a3 ++ ","
       ++ str a4 ++ "," ++ str a5 ++ "," ++ str a6 ++ ")" ++ NUL)%string in
  let messages := fst (get_last_messages (incoming st)) in
  let notified :=
    match messages with
    | [] => []
    | _ => if on_new_messages_received (settings st)
           then [EvNotify messages] else []
    end in
  let ev :=
    EvSend wire
    :: EvWait (Some (motion_commands_response_timeout (settings st)))
    :: EvRead messages :: notified in
  MoveJoints [a1; a2; a3; a4; a5; a6] st = (Ok tt, refreshed st, ev)
  /\ before_send ev = []
  /\ count_sends ev = 1%nat
  /\ count_reads ev = 1%nat.
Proof.
  cbv zeta. unfold MoveJoints. cbn [List.length Nat.eqb negb].
  rewrite (send_string_command_ok _
             (encodable_build_command "MoveJoints" _ eq_refl)).
  unfold bind, emit, update_log_for_motion_commands.
  rewrite update_log_eq, refresh_events_eq.
  split.
  - cbn [build_command map String.concat app].
    rewrite !string_append_assoc.
    destruct (fst (get_last_messages (incoming st))); reflexivity.
  - destruct (fst (get_last_messages (incoming st)));
      destruct (on_new_messages_received (settings st));
      repeat split; reflexivity.
Qed.

(** C9: outside 0..100 [SetBlending] raises ValueError with the state
    unchanged and without any event: nothing is sent and the log is not
    refreshed; within 0..100 it transmits the command built for
    [SetBlending] with the argument [p], followed by a null byte, then
    refreshes the log once. *)
Theorem SetBlending_validates_before_sending (p : pynum)
  (st : RobotController) :
  (~ (0 <= value p /\ value p <= 100)%Q ->
   SetBlending p st
   = (Raise (ValueError
        ("RobotController::SetBlending invalid value p=" ++ str p)),
      st, []))
  /\
  ((0 <= value p /\ value p <= 100)%Q ->
   SetBlending p st
   = (Ok tt, refreshed st,
      EvSend (build_command "SetBlending" [p] ++ NUL)
      :: refresh_events true
           (Some (motion_commands_response_timeout (settings st))) st)).
Proof.
  unfold SetBlending. split; intros H.
  - destruct (Qle_bool 0 (value p) && Qle_bool (value p) 100) eqn:E.
    + exfalso. apply H. apply andb_true_iff in E.
      rewrite !Qle_bool_iff in E. exact E.
    + reflexivity.
  - destruct H as [H0 H100]. apply Qle_bool_iff in H0, H100.
    rewrite H0, H100. cbn [andb negb].
    rewrite (send_string_command_ok _
               (encodable_build_command "SetBlending" _ eq_refl)).
    unfold bind, emit, update_log_for_motion_commands.
    rewrite update_log_eq. reflexivity.
Qed.

Lemma SetBlending_validates_before_sending_witness :
  let st := controller [("2000", "")] [[("3004", "")]] in
  SetBlending (PyNum 150 "150") st
  = (Raise (ValueError "RobotController::SetBlending invalid value p=150"),
     st, [])
  /\ SetBlending (PyNum 50 "50") st
     = (Ok tt, controller [("2000", ""); ("3004", "")] [],
        [EvSend ("SetBlending(50)" ++ NUL); EvWait (Some (1 # 1000));
         EvRead [("3004", "")]]).
Proof.
  cbv zeta. split.
  - apply (SetBlending_validates_before_sending (PyNum 150 "150")).
    intros [_ H]. vm_compute in H. apply H. reflexivity.
  - apply (SetBlending_validates_before_sending (PyNum 50 "50")
             (controller [("2000", "")] [[("3004", "")]])).
    split; vm_compute; discriminate.
Defined.

(** ** Error detection consumes the entry *)

Lemma occurrences_without_code (code : string) (m : Entry) (l : list Entry) :
  startswith code m = true -> occurrences m (without_code code l) = 0%nat.
Proof.
  intros Pm. apply (count_occ_not_In entry_eq_dec). intros Hin.
  apply filter_In in Hin. destruct Hin as [_ Hn].
  rewrite Pm in Hn. discriminate.
Qed.

Lemma count_code_without_code (code : string) (l : list Entry) :
  count_code code (without_code code l) = 0%nat.
Proof.
  unfold count_code, without_code.
  induction l as [|y l IH]; [reflexivity|]. cbn [filter].
  destruct (startswith code y) eqn:Py; cbn [negb]; [exact IH|].
  cbn [filter]. rewrite Py. exact IH.
Qed.

(** Replacing the log by one with fewer copies of [m] lowers the
    number of copies held or still to come. *)
Lemma occurrences_set_log (st : RobotController) (l : list Entry)
  (m : Entry) :
  (occurrences m l < occurrences m (log st))%nat ->
  (occurrences m (all_entries (set_log st l))
   < occurrences m (all_entries st))%nat.
Proof.
  intros H. unfold all_entries. cbn [log incoming set_log].
  rewrite !occurrences_app. lia.
Qed.

Lemma occurrences_reversed_without (m : Entry) (l1 l2 : list Entry) :
  S (occurrences m (rev l2 ++ rev l1)) = occurrences m (l1 ++ m :: l2).
Proof.
  rewrite occurrences_middle, !occurrences_app, !occurrences_rev,
    occurrences_self. lia.
Qed.

(** C10: when [handle_specific_error] raises for an entry [m], [m] was
    in the log, no entry with the code is left and the same check then
    passes; when [handle_errors] raises for [m], the log holds one copy
    of [m] and one entry fewer than before; and when
    [send_command_handled] fails on an error entry [m], fewer copies of
    [m] are held or still to come than when it was called. *)
Theorem error_detection_consumes_entry :
  (forall code method_str st method_str' m st' ev,
      handle_specific_error code method_str st
      = (Raise (RuntimeError (ErrorInLog method_str' m)), st', ev) ->
      In m (log st) /\ startswith code m = true /\
      ~ In m (log st') /\ count_code code (log st') = 0%nat /\
      handle_specific_error code method_str st' = (Ok tt, st', []))
  /\
  (forall method_str st method_str' m st' ev,
      handle_errors method_str st
      = (Raise (RuntimeError (ErrorInLog method_str' m)), st', ev) ->
      In m (log st) /\ startswith "1" m = true /\
      S (occurrences m (log st')) = occurrences m (log st) /\
      S (List.length (log st')) = List.length (log st))
  /\
  (forall cmd method_str codes_to_remove errors_code responses_code
          hae w t st method_str' m st' ev,
      send_command_handled cmd method_str codes_to_remove errors_code
        responses_code hae w t st
      = (Raise (RuntimeError (ErrorInLog method_str' m)), st', ev) ->
      (occurrences m (all_entries st')
       < occurrences m (all_entries st))%nat).
Proof.
  split; [|split].
  - intros code ms st ms' m st' ev H.
    destruct (handle_specific_error_spec code ms st)
      as [[_ E]|(m0 & Hm & Pm & E)]; rewrite E in H; [discriminate|].
    injection H as <- <- <- _.
    split; [exact Hm|]. split; [exact Pm|].
    assert (Hleft : forall x, In x (log (set_log st (without_code code (log st)))) ->
                              startswith code x = false).
    { cbn [log set_log]. intros x Hx. apply filter_In in Hx.
      destruct Hx as [_ Hx]. destruct (startswith code x); [discriminate|].
      reflexivity. }
    split; [|split].
    + intros Hin. rewrite (Hleft m0 Hin) in Pm. discriminate.
    + cbn [log set_log]. apply count_code_without_code.
    + destruct (handle_specific_error_spec code ms
                  (set_log st (without_code code (log st))))
        as [[_ E']|(m1 & Hm1 & Pm1 & _)]; [exact E'|].
      rewrite (Hleft m1 Hm1) in Pm1. discriminate.
  - intros ms st ms' m st' ev H.
    destruct (handle_errors_spec ms st)
      as [[_ E]|(l1 & m0 & l2 & Hl & Pm & _ & E)]; rewrite E in H;
      [discriminate|].
    injection H as <- <- <- _. cbn [log set_log]. rewrite Hl.
    split; [apply in_elt|]. split; [exact Pm|]. split.
    + apply occurrences_reversed_without.
    + rewrite !length_app, !length_rev. cbn [List.length]. lia.
  - intros cmd ms rm errs resps hae w t st ms' m st' ev H.
    destruct (encodable (cmd ++ NUL)) eqn:Henc;
      [|rewrite (send_command_handled_refused _ _ _ _ _ _ _ _ _ Henc) in H;
        discriminate].
    apply send_command_handled_outcome in H; [|exact Henc].
    destruct H as (ev' & Hout & _).
    set (st3 := refreshed (prepared rm st)) in *.
    assert (E3 : evolves st st3).
    { eapply evolves_trans; [apply evolves_prepared|apply evolves_refreshed]. }
    assert (E4 : evolves st (refreshed st3)).
    { eapply evolves_trans; [exact E3|apply evolves_refreshed]. }
    remember (Raise (RuntimeError (ErrorInLog ms' m))) as r eqn:Hr.
    destruct Hout; try discriminate; injection Hr as <- <-.
    + eapply Nat.lt_le_trans; [|apply (evolves_entries _ _ E3)].
      apply occurrences_set_log.
      rewrite occurrences_without_code by assumption.
      apply occurrences_In. assumption.
    + eapply Nat.lt_le_trans; [|apply (evolves_entries _ _ E3)].
      apply occurrences_set_log.
      pose proof (occurrences_reversed_without m0 l1 l2) as Ho.
      rewrite <- H0 in Ho. lia.
    + eapply Nat.lt_le_trans; [|apply (evolves_entries _ _ E4)].
      apply occurrences_set_log.
      pose proof (occurrences_reversed_without m0 l1 l2) as Ho.
      rewrite <- H1 in Ho. lia.
Qed.

Lemma error_detection_consumes_entry_witness :
  let st := controller [("1011", "x"); ("2000", ""); ("1011", "x")] [] in
  let st' := controller [("2000", ""); ("1011", "x")] [] in
  handle_errors "Home" st
  = (Raise (RuntimeError (ErrorInLog "Home" ("1011", "x"))), st', [])
  /\ S (occurrences ("1011", "x") (log st'))
     = occurrences ("1011", "x") (log st).
Proof.
  cbv zeta.
  assert (E : handle_errors "Home"
                (controller [("1011", "x"); ("2000", ""); ("1011", "x")] [])
              = (Raise (RuntimeError (ErrorInLog "Home" ("1011", "x"))),
                 controller [("2000", ""); ("1011", "x")] [], []))
    by reflexivity.
  split; [exact E|].
  destruct error_detection_consumes_entry as (_ & Hgen & _).
  apply (Hgen _ _ _ _ _ _ E).
Defined.

(** * Further properties of the code *)

(** ** MecademicLog *)

Lemma without_code_twice (code : string) (l : list Entry) :
  without_code code (without_code code l) = without_code code l.
Proof.
  unfold without_code. induction l as [|y l IH]; [reflexivity|].
  cbn [filter]. destruct (startswith code y) eqn:Py; cbn [negb]; [exact IH|].
  cbn [filter]. rewrite Py. cbn [negb]. rewrite IH. reflexivity.
Qed.

(** X1: [remove_all_code] never raises and touches no socket; it
    leaves exactly the entries whose code does not start with [code],
    in their order; none with the code is left, and calling it again
    changes nothing. *)
Theorem remove_all_code_removes_exactly (code : string)
  (st : RobotController) :
  let st' := set_log st (filter (fun m => negb (startswith code m)) (log st)) in
  remove_all_code code st = (Ok tt, st', [])
  /\ count_code code (log st') = 0%nat
  /\ remove_all_code code st' = (Ok tt, st', []).
Proof.
  cbv zeta. fold (without_code code (log st)).
  split; [apply remove_all_code_eq|]. split.
  - apply count_code_without_code.
  - rewrite remove_all_code_eq. cbn [log set_log].
    rewrite without_code_twice. reflexivity.
Qed.

(** X2: [delete_others] does not change which entry
    [get_last_code_occurance] returns.  With [delete_others = True] a
    successful search leaves the log without any entry of the code,
    the other entries in their order; an unsuccessful one leaves the
    state as it was. *)
Theorem get_last_code_occurance_delete_others (code : string)
  (st : RobotController) :
  fst (fst (get_last_code_occurance code true st))
  = fst (fst (get_last_code_occurance code false st))
  /\ match get_last_code_occurance code true st with
     | (Ok (Some _), st', ev) =>
         st' = set_log st
                 (filter (fun m => negb (startswith code m)) (log st))
         /\ ev = []
     | (r, st', ev) => r = Ok None /\ st' = st /\ ev = []
     end
  /\ count_code code (log (state_after (get_last_code_occurance code true) st))
     = 0%nat.
Proof.
  unfold state_after.
  destruct (get_last_code_occurance_spec code true st)
    as [[Hnone Et]|(l1 & m & l2 & Hl & Pm & Hl2 & Et)];
    destruct (get_last_code_occurance_spec code false st)
      as [[Hnone' Ef]|(l1' & m' & l2' & Hl' & Pm' & Hl2' & Ef)];
    rewrite Et, Ef; cbn [fst snd].
  - split; [reflexivity|]. split; [auto|].
    unfold count_code. destruct (filter_absent _ _ Hnone) as [-> _].
    reflexivity.
  - exfalso. assert (Hin : In m' (log st)) by (rewrite Hl'; apply in_elt).
    rewrite (Hnone m' Hin) in Pm'. discriminate.
  - exfalso. assert (Hin : In m (log st)) by (rewrite Hl; apply in_elt).
    rewrite (Hnone' m Hin) in Pm. discriminate.
  - split; [|split; [auto|apply count_code_without_code]].
    assert (Hsame : l1 = l1' /\ m = m').
    { rewrite Hl in Hl'. clear - Hl' Pm Pm' Hl2 Hl2'.
      revert l1' Hl'. induction l1 as [|a l1 IH]; intros [|a' l1'] Hl';
        cbn [app] in Hl'.
      - injection Hl' as -> _. auto.
      - injection Hl' as -> ->. exfalso.
        assert (Hin : In m' (l1' ++ m' :: l2')) by apply in_elt.
        rewrite (Hl2 m' Hin) in Pm'. discriminate.
      - injection Hl' as -> <-. exfalso.
        assert (Hin : In m (l1 ++ m :: l2)) by apply in_elt.
        rewrite (Hl2' m Hin) in Pm. discriminate.
      - injection Hl' as -> Hl'. destruct (IH _ Hl') as [-> ->]. auto. }
    destruct Hsame as [_ ->]. reflexivity.
Qed.

(** X3: on an empty log [get_first_message] and [get_last_message]
    return [None] and change nothing; otherwise the first returns and
    removes the leftmost entry and the second the rightmost one. *)
Theorem get_first_last_message_ends (st : RobotController) :
  match log st with
  | [] =>
      get_first_message st = (Ok None, st, [])
      /\ get_last_message st = (Ok None, st, [])
  | x :: l =>
      get_first_message st = (Ok (Some x), set_log st l, [])
      /\ get_last_message st
         = (Ok (Some (last (x :: l) x)),
            set_log st (removelast (x :: l)), [])
  end.
Proof.
  unfold get_first_message, get_last_message, Deque.popleft, Deque.pop.
  destruct (log st) as [|x l] eqn:El; [split; reflexivity|].
  split; [reflexivity|].
  assert (Hne : x :: l <> []) by discriminate.
  rewrite (app_removelast_last x Hne) at 1.
  rewrite rev_unit, rev_involutive. reflexivity.
Qed.

Lemma append_ends_with (n : nat) (d : list Entry) (x : Entry) :
  (0 < n)%nat -> exists d', Deque.append n d x = d' ++ [x].
Proof.
  intros Hn. unfold Deque.append.
  destruct (n <? List.length (d ++ [x]))%nat eqn:E.
  - destruct d as [|y d]; cbn [app tl].
    + apply Nat.ltb_lt in E. cbn in E. lia.
    + exists d. reflexivity.
  - exists d. reflexivity.
Qed.

(** X4: when the log can hold at least one entry, the entry that a
    refresh received last is the one [get_last_message] returns right
    after. *)
Theorem update_log_then_get_last_message (w : bool) (t : option Q)
  (st : RobotController) (batch : list Entry) (x : Entry)
  (rest : list (list Entry)) :
  incoming st = (batch ++ [x]) :: rest ->
  (0 < maxlen st)%nat ->
  fst (fst ((update_log w t ;; get_last_message) st)) = Ok (Some x).
Proof.
  intros Hi Hn. unfold bind. rewrite update_log_eq.
  destruct (refreshed_log st)
    as [(rest' & Hi' & _)|[(Hi' & _)|(y & ys & rest' & Hi' & ->)]];
    rewrite Hi in Hi'.
  - injection Hi' as Hb _. destruct batch; discriminate.
  - discriminate.
  - injection Hi' as Hb _. rewrite <- Hb.
    unfold Deque.extend. rewrite fold_left_app. cbn [fold_left].
    destruct (append_ends_with (maxlen st)
                (fold_left (Deque.append (maxlen st)) batch (log st)) x Hn)
      as [d' ->].
    unfold get_last_message, Deque.pop. cbn [log set_log set_incoming].
    rewrite rev_unit. reflexivity.
Qed.

Lemma update_log_then_get_last_message_witness :
  fst (fst ((update_log true None ;; get_last_message)
              (small_controller 1 [("2000", "")]
                 [[("3000", ""); ("3004", "")]])))
  = Ok (Some ("3004", "")).
Proof.
  apply (update_log_then_get_last_message true None
           (small_controller 1 [("2000", "")] [[("3000", ""); ("3004", "")]])
           [("3000", "")] ("3004", "") []).
  - reflexivity.
  - cbn. lia.
Defined.

(** X20: in a log within its capacity, every sequence of operations
    of the log leaves it within its capacity; a refresh leaves the
    last [maxlen] elements of the old deque followed by the batch,
    dropping from the left end whatever stands there, which are the
    entries appended first only while the deque stands in the order of
    arrival; and a batch of [maxlen + 1] entries leaves exactly its
    last [maxlen] entries, in the order of arrival. *)
Theorem log_within_capacity_keeps_right_end (st : RobotController) :
  (List.length (log st) <= maxlen st)%nat ->
  (forall ops,
      maxlen (run_log_operations ops st) = maxlen st /\
      (List.length (log (run_log_operations ops st)) <= maxlen st)%nat) /\
  (forall w t batch rest,
      incoming st = batch :: rest ->
      log (state_after (update_log w t) st)
      = most_recent (maxlen st) (log st ++ batch)) /\
  (forall w t earliest batch rest,
      incoming st = (earliest :: batch) :: rest ->
      List.length batch = maxlen st ->
      log (state_after (update_log w t) st) = batch).
Proof.
  intros H.
  assert (Hrefresh : forall w t batch rest,
      incoming st = batch :: rest ->
      log (state_after (update_log w t) st)
      = most_recent (maxlen st) (log st ++ batch)).
  { intros w t batch rest Hi. unfold state_after.
    rewrite update_log_eq. cbn [fst snd].
    destruct (refreshed_log st)
      as [(rest' & Hi' & ->)|[(Hi' & ->)|(x & xs & rest' & Hi' & ->)]];
      rewrite Hi in Hi'; try discriminate;
      injection Hi' as -> _; cbn [log set_log set_incoming].
    - rewrite app_nil_r, DequeFacts.most_recent_all; auto.
    - apply DequeFacts.extend_most_recent, H. }
  split; [|split].
  - intros ops. destruct (evolves_run_log_operations ops st) as [Hs _ Hb].
    unfold maxlen in *. rewrite Hs in *. auto.
  - exact Hrefresh.
  - intros w t earliest batch rest Hi Hlen.
    rewrite (Hrefresh w t _ _ Hi). unfold most_recent.
    rewrite length_app. cbn [List.length]. rewrite skipn_app.
    rewrite skipn_all2 by lia.
    replace (List.length (log st) + S (List.length batch) - maxlen st
             - List.length (log st))%nat with 1%nat by lia.
    reflexivity.
Qed.

Lemma log_within_capacity_keeps_right_end_witness :
  let e := fun c => (c, "") in
  let st := small_controller 2 [e "2000"]
              [[e "3000"; e "3004"; e "3012"]] in
  log (state_after (update_log false None) st) = [e "3004"; e "3012"]
  /\ (List.length
        (log (run_log_operations
                [OpUpdateLog true None; OpGetLastCodeOccurance "3" false;
                 OpUpdateLog false None; OpGetFirstMessage] st))
      <= 2)%nat.
Proof.
  cbv zeta.
  pose (st := small_controller 2 [("2000", "")]
                [[("3000", ""); ("3004", ""); ("3012", "")]]).
  assert (H : (List.length (log st) <= maxlen st)%nat)
    by (vm_compute; repeat constructor).
  destruct (log_within_capacity_keeps_right_end st H) as (Hop & _ & Hevict).
  split.
  - apply (Hevict false None ("3000", "") _ []); reflexivity.
  - apply (Hop [OpUpdateLog true None; OpGetLastCodeOccurance "3" false;
                OpUpdateLog false None; OpGetFirstMessage]).
Defined.

(** X21: [get_last_code_occurance] never raises; an entry it returns
    has a code that starts with the prefix and is the rightmost such
    entry of the deque (no entry to its right matches), which is the
    matching entry appended last only while the deque stands in the
    order of arrival; it returns [None] exactly when no entry matches,
    and then the state is unchanged. *)
Theorem get_last_code_occurance_rightmost_match (code : string)
  (delete_others : bool) (st : RobotController) :
  match get_last_code_occurance code delete_others st with
  | (Ok (Some m), _, _) =>
      startswith code m = true /\
      exists to_the_left to_the_right,
        log st = to_the_left ++ m :: to_the_right /\
        forallb (fun x => negb (startswith code x)) to_the_right = true
  | (Ok None, st', _) =>
      forallb (fun x => negb (startswith code x)) (log st) = true /\
      st' = st
  | (Raise _, _, _) => False
  end.
Proof.
  destruct (get_last_code_occurance_spec code delete_others st)
    as [[Hnone E]|(l1 & m & l2 & Hl & Pm & Hl2 & E)]; rewrite E.
  - split; [|reflexivity]. apply forallb_forall. intros x Hx.
    rewrite (Hnone x Hx). reflexivity.
  - split; [exact Pm|]. exists l1, l2. split; [exact Hl|].
    apply forallb_forall. intros x Hx. rewrite (Hl2 x Hx). reflexivity.
Qed.

(** ** The checks and the verified protocol *)

Lemma check_response_loop_first (codes all_codes : list string)
  (method_str : string) (st : RobotController) :
  (none_with codes (log st) /\
   check_response_loop codes all_codes method_str st
   = (Raise (RuntimeError (CodeNotFound method_str all_codes)), st, []))
  \/
  (exists pre c post m,
     codes = pre ++ c :: post /\ none_with pre (log st) /\
     In m (log st) /\ startswith c m = true /\
     check_response_loop codes all_codes method_str st
     = (Ok tt, set_log st (without_code c (log st)), [])).
Proof.
  induction codes as [|code codes IH]; cbn [check_response_loop].
  - left. split; [intros c m []|reflexivity].
  - unfold bind.
    destruct (get_last_code_occurance_spec code true st)
      as [[Hnone E]|(l1 & m & l2 & Hl & Pm & _ & E)]; rewrite E.
    + destruct IH as [[Hn IH]|(pre & c & post & m & Hc & Hpre & Hm & Pm & IH)];
        rewrite IH.
      * left. split; [|reflexivity].
        intros c m [<-|Hc] Hm; [apply Hnone|apply (Hn c m)]; auto.
      * right. exists (code :: pre), c, post, m. rewrite Hc.
        split; [reflexivity|]. split; [|auto].
        intros c' m' [<-|Hc'] Hm'; [apply Hnone|apply (Hpre c' m')]; auto.
    + right. exists [], code, codes, m.
      split; [reflexivity|]. split; [intros c' m' []|].
      split; [rewrite Hl; apply in_elt|]. split; [exact Pm|reflexivity].
Qed.

(** X5: [check_response] tries the codes in the order the caller lists
    them: it succeeds on the first listed code that some entry carries,
    whatever the age of that entry, and removes every entry of that
    code and nothing else; entries of the codes listed later stay in
    the log.  With no code listed it succeeds at once; when no entry
    carries a listed code it raises "code not found" and leaves the
    state as it was. *)
Theorem check_response_first_listed_code (codes : list string)
  (method_str : string) (st : RobotController) :
  match check_response codes method_str st with
  | (Ok _, st', ev) =>
      ev = [] /\
      ((codes = [] /\ st' = st) \/
       exists pre c post m,
         codes = pre ++ c :: post /\ none_with pre (log st) /\
         In m (log st) /\ startswith c m = true /\
         st' = set_log st (without_code c (log st)))
  | (Raise e, st', ev) =>
      e = RuntimeError (CodeNotFound method_str codes) /\ codes <> [] /\
      none_with codes (log st) /\ st' = st /\ ev = []
  end.
Proof.
  destruct codes as [|code codes]; cbn [check_response].
  - cbn. auto.
  - destruct (check_response_loop_first (code :: codes) (code :: codes)
                method_str st)
      as [[Hn E]|(pre & c & post & m & Hc & Hpre & Hm & Pm & E)]; rewrite E.
    + repeat split; auto. discriminate.
    + split; [reflexivity|]. right. exists pre, c, post, m. auto.
Qed.

(** X6: for a command that encodes to ASCII: when, after the refresh
    that follows the transmission, the log holds an entry of one of the
    command's own error codes, the call fails on an entry of such a
    code, whatever else the log holds (other error entries, the
    expected response): the command-specific check comes first.  Every
    entry of that code is removed and there is no retry. *)
Theorem send_command_handled_specific_error_first (cmd method_str : string)
  (codes_to_remove errors_code responses_code : list string)
  (hae w : bool) (t : option Q) (st : RobotController)
  (c : string) (x : Entry) :
  let st3 := refreshed (prepared codes_to_remove st) in
  encodable (cmd ++ NUL) = true ->
  In c errors_code -> In x (log st3) -> startswith c x = true ->
  exists c' m,
    In c' errors_code /\ In m (log st3) /\ startswith c' m = true /\
    send_command_handled cmd method_str codes_to_remove errors_code
      responses_code hae w t st
    = (Raise (RuntimeError (ErrorInLog method_str m)),
       set_log st3 (without_code c' (log st3)),
       refresh_events false None st
       ++ EvSend (cmd ++ NUL)
       :: refresh_events w t (prepared codes_to_remove st)).
Proof.
  cbv zeta. intros Henc Hc Hx Px.
  rewrite send_command_handled_unfold by exact Henc.
  unfold checks_after_send. unfold bind at 1.
  destruct (for_each_handle_specific_error_spec errors_code method_str
              (refreshed (prepared codes_to_remove st)))
    as [[Hn _]|(c' & m & Hc' & Hm & Pm & E)].
  - rewrite (Hn c x Hc Hx) in Px. discriminate.
  - rewrite E. exists c', m. rewrite app_nil_r. auto.
Qed.

Lemma send_command_handled_specific_error_first_witness :
  fst (fst (ActivateRobot
              (controller []
                 [[]; [("1011", "x"); ("2000", "ok"); ("1013", "y")]])))
  = Raise (RuntimeError (ErrorInLog "ActivateRobot" ("1013", "y"))).
Proof.
  destruct (send_command_handled_specific_error_first
              "ActivateRobot" "ActivateRobot" ["1005"] ["1013"]
              ["2000"; "2001"] true true None
              (controller []
                 [[]; [("1011", "x"); ("2000", "ok"); ("1013", "y")]])
              "1013" ("1013", "y"))
    as (c' & m & Hc' & Hm & Pm & E).
  - reflexivity.
  - now left.
  - vm_compute. auto.
  - reflexivity.
  - unfold ActivateRobot. rewrite E. cbn [fst].
    destruct Hc' as [<-|[]]. vm_compute in Hm.
    destruct Hm as [<-|[<-|[<-|[]]]]; try discriminate. reflexivity.
Defined.

Lemma set_incoming_log (st : RobotController) (rest : list (list Entry)) :
  set_log (set_incoming st rest) (log st) = set_incoming st rest.
Proof. reflexivity. Qed.

(** A refresh whose batch fits appends the batch. *)
Lemma refreshed_fits (st : RobotController) (b : list Entry)
  (rest : list (list Entry)) :
  incoming st = b :: rest ->
  (List.length (log st) + List.length b <= maxlen st)%nat ->
  refreshed st = set_log (set_incoming st rest) (log st ++ b).
Proof.
  intros Hi Hfit.
  destruct (refreshed_log st)
    as [(rest' & Hi' & ->)|[(Hi' & ->)|(x & xs & rest' & Hi' & ->)]];
    rewrite Hi in Hi'; try discriminate; injection Hi' as -> ->.
  - rewrite app_nil_r. reflexivity.
  - rewrite DequeFacts.extend_most_recent by lia.
    rewrite DequeFacts.most_recent_all by (rewrite length_app; lia).
    reflexivity.
Qed.

Lemma prepared_log_eq (codes : list string) (st : RobotController) :
  prepared_log codes st
  = set_log st (fold_left (fun l code => without_code code l) codes (log st)).
Proof.
  unfold prepared_log, state_after. revert st.
  induction codes as [|code codes IH]; intros st; cbn [for_each fold_left].
  - cbn. symmetry. apply set_log_log.
  - unfold bind. rewrite remove_all_code_eq.
    specialize (IH (set_log st (without_code code (log st)))).
    destruct (for_each codes remove_all_code
                (set_log st (without_code code (log st))))
      as [[r st'] ev].
    cbn [fst snd] in *. rewrite IH. reflexivity.
Qed.

Lemma length_forget (codes : list string) (l : list Entry) :
  (List.length (fold_left (fun l code => without_code code l) codes l)
   <= List.length l)%nat.
Proof.
  revert l. induction codes as [|code codes IH]; intros l; cbn [fold_left].
  - lia.
  - etransitivity; [apply IH|]. apply filter_length_le.
Qed.

(** With nothing to object to and a response in the log, the first
    check succeeds. *)
Lemma first_check_success (method_str : string)
  (errors_code responses_code : list string) (hae w : bool)
  (t : option Q) (st : RobotController) (c : string) (m : Entry) :
  none_with errors_code (log st) ->
  (hae = true -> none_with ["1"] (log st)) ->
  In c responses_code -> In m (log st) -> startswith c m = true ->
  exists st',
    checks_after_send method_str errors_code responses_code hae w t st
    = (Ok tt, st', []) /\ incoming st' = incoming st.
Proof.
  intros Herr Hgen Hc Hm Pm.
  destruct (checks_after_send method_str errors_code responses_code hae w t st)
    as [[r st'] ev] eqn:E.
  apply checks_after_send_outcome in E. destruct E.
  - rewrite (Herr c0 m0) in H1; auto. discriminate.
  - assert (Hin : In m0 (log st)) by (rewrite H0; apply in_elt).
    rewrite (Hgen H "1" m0) in H1; auto. + discriminate. + now left.
  - subst responses_code. destruct Hc.
  - eexists. split; reflexivity.
  - rewrite (H0 c m) in Pm; auto. discriminate.
  - rewrite (H0 c m) in Pm; auto. discriminate.
  - rewrite (H0 c m) in Pm; auto. discriminate.
Qed.

(** X7: for a command that encodes to ASCII: when the two batches
    read before and after the transmission fit into the log, a
    verified command succeeds at its first check,
    without a retry, as soon as an entry of an expected code is held
    and, the entries of the codes to forget that were held before the
    transmission left aside, no entry of an error code of the command
    (and, unless suppressed, no entry of a code starting with 1) is
    held.  Entries of the codes to forget thus make no command fail
    if they arrived before it was sent. *)
Theorem send_command_handled_forgets_stale_codes (cmd method_str : string)
  (codes_to_remove errors_code responses_code : list string)
  (hae w : bool) (t : option Q) (st : RobotController)
  (b0 b1 : list Entry) (rest : list (list Entry))
  (c : string) (m : Entry) :
  let held :=
    fold_left (fun l code => without_code code l) codes_to_remove
      (log st ++ b0) in
  encodable (cmd ++ NUL) = true ->
  incoming st = b0 :: b1 :: rest ->
  (List.length (log st) + List.length b0 + List.length b1 <= maxlen st)%nat ->
  none_with errors_code (held ++ b1) ->
  (hae = true -> none_with ["1"] (held ++ b1)) ->
  In c responses_code -> In m (held ++ b1) -> startswith c m = true ->
  exists st' ev,
    send_command_handled cmd method_str codes_to_remove errors_code
      responses_code hae w t st = (Ok tt, st', ev)
    /\ incoming st' = rest
    /\ count_reads (after_send ev) = 1%nat.
Proof.
  cbv zeta. intros Henc Hi Hfit Herr Hgen Hc Hm Pm.
  rewrite send_command_handled_unfold by exact Henc.
  assert (E1 : refreshed st = set_log (set_incoming st (b1 :: rest))
                                (log st ++ b0))
    by (apply (refreshed_fits st b0 (b1 :: rest) Hi); lia).
  assert (E2 : prepared codes_to_remove st
               = set_log (set_incoming st (b1 :: rest))
                   (fold_left (fun l code => without_code code l)
                      codes_to_remove (log st ++ b0))).
  { unfold prepared. rewrite prepared_log_eq, E1. reflexivity. }
  pose proof (length_forget codes_to_remove (log st ++ b0)) as Hlen.
  rewrite length_app in Hlen.
  assert (E3 : refreshed (prepared codes_to_remove st)
               = set_log (set_incoming st rest)
                   (fold_left (fun l code => without_code code l)
                      codes_to_remove (log st ++ b0) ++ b1)).
  { rewrite E2.
    rewrite (refreshed_fits _ b1 rest); [reflexivity|reflexivity|].
    cbn [log set_log]. unfold maxlen in *. cbn [settings set_log set_incoming].
    lia. }
  assert (El : log (refreshed (prepared codes_to_remove st))
               = fold_left (fun l code => without_code code l)
                   codes_to_remove (log st ++ b0) ++ b1)
    by (rewrite E3; reflexivity).
  destruct (first_check_success method_str errors_code responses_code hae w t
              (refreshed (prepared codes_to_remove st)) c m)
    as (st' & E & Hinc); try assumption; try (rewrite El; assumption).
  rewrite E. exists st'. eexists. split; [reflexivity|]. split.
  - rewrite Hinc, E3. reflexivity.
  - rewrite app_nil_r.
    destruct (refresh_events_split false None st (cmd ++ NUL)
                (refresh_events w t (prepared codes_to_remove st)))
      as [-> _].
    apply refresh_events_reads.
Qed.

(** The stale entry 1005 is forgotten and the response 2001 accepted. *)
Lemma send_command_handled_forgets_stale_codes_witness :
  exists st' ev,
    ActivateRobot
      (controller [("1005", "not activated")] [[]; [("2001", "")]; []])
    = (Ok tt, st', ev)
    /\ incoming st' = [[]]
    /\ count_reads (after_send ev) = 1%nat.
Proof.
  apply (send_command_handled_forgets_stale_codes
           "ActivateRobot" "ActivateRobot" ["1005"] ["1013"]
           ["2000"; "2001"] true true None
           (controller [("1005", "not activated")] [[]; [("2001", "")]; []])
           [] [("2001", "")] [[]] "2001" ("2001", "")).
  - reflexivity.
  - reflexivity.
  - vm_compute. repeat constructor.
  - intros c m [<-|[]] [<-|[]]. reflexivity.
  - intros _ c m [<-|[]] [<-|[]]. reflexivity.
  - right. now left.
  - now left.
  - reflexivity.
Defined.

Lemma sent_app (e1 e2 : list event) : sent (e1 ++ e2) = sent e1 ++ sent e2.
Proof.
  induction e1 as [|[b|t|m|m] e1 IH]; cbn [app sent]; [reflexivity|..];
    rewrite IH; reflexivity.
Qed.

Lemma notified_app (e1 e2 : list event) :
  notified (e1 ++ e2) = notified e1 ++ notified e2.
Proof.
  induction e1 as [|[b|t|m|m] e1 IH]; cbn [app notified]; [reflexivity|..];
    rewrite IH; reflexivity.
Qed.

Lemma received_app (e1 e2 : list event) :
  received (e1 ++ e2) = received e1 ++ received e2.
Proof.
  induction e1 as [|[b|t|[|x m]|m] e1 IH]; cbn [app received];
    [reflexivity|..]; rewrite IH; reflexivity.
Qed.

(** What one refresh sends, hands to the callback and receives. *)
Lemma refresh_events_lists (w : bool) (t : option Q) (st : RobotController) :
  sent (refresh_events w t st) = []
  /\ notified (refresh_events w t st)
     = (if on_new_messages_received (settings st)
        then received (refresh_events w t st) else []).
Proof.
  rewrite refresh_events_eq.
  destruct (fst (get_last_messages (incoming st))) as [|x xs];
    destruct w; destruct (on_new_messages_received (settings st));
    split; reflexivity.
Qed.

(** The events of a whole call, in terms of its refreshes. *)
Lemma send_command_handled_events (cmd method_str : string)
  (codes_to_remove errors_code responses_code : list string)
  (hae w : bool) (t : option Q) (st : RobotController)
  (r : result unit) (st' : RobotController) (ev : list event) :
  encodable (cmd ++ NUL) = true ->
  send_command_handled cmd method_str codes_to_remove errors_code
    responses_code hae w t st = (r, st', ev) ->
  exists ev',
    ev = refresh_events false None st
         ++ [EvSend (cmd ++ NUL)]
         ++ refresh_events w t (prepared codes_to_remove st) ++ ev'
    /\ (ev' = [] \/
        ev' = refresh_events w t (refreshed (prepared codes_to_remove st))).
Proof.
  intros Henc H. apply send_command_handled_outcome in H; [|exact Henc].
  destruct H as (ev' & Hout & ->). exists ev'. split; [reflexivity|].
  destruct Hout; auto.
Qed.

Lemma settings_refreshed (st : RobotController) :
  settings (refreshed st) = settings st.
Proof. apply evolves_refreshed. Qed.

Lemma settings_prepared (codes : list string) (st : RobotController) :
  settings (prepared codes st) = settings st.
Proof. apply evolves_prepared. Qed.

(** X8: whatever its outcome, a call of [send_command_handled]
    with a command that encodes to ASCII transmits exactly the command
    followed by one null byte, once; with a command that does not, the
    encoding raises and nothing is transmitted.  In both cases every
    non-empty batch the call reads is handed to the callback, when one
    is registered, whole and in the order of arrival, each once; with
    no callback nothing is handed over. *)
Theorem send_command_handled_sends_and_notifies (cmd method_str : string)
  (codes_to_remove errors_code responses_code : list string)
  (hae w : bool) (t : option Q) (st : RobotController) :
  let run :=
    send_command_handled cmd method_str codes_to_remove errors_code
      responses_code hae w t st in
  sent (snd run)
  = (if encodable (cmd ++ NUL) then [(cmd ++ NUL)%string] else [])
  /\ (encodable (cmd ++ NUL) = false ->
      run = (Raise UnicodeEncodeError, prepared codes_to_remove st,
             refresh_events false None st))
  /\ notified (snd run)
     = (if on_new_messages_received (settings st)
        then received (snd run) else []).
Proof.
  cbv zeta. destruct (encodable (cmd ++ NUL)) eqn:Henc.
  - destruct (send_command_handled cmd method_str codes_to_remove errors_code
                responses_code hae w t st) as [[r st'] ev] eqn:E.
    cbn [snd]. apply send_command_handled_events in E; [|exact Henc].
    destruct E as (ev' & -> & Hev').
    rewrite !sent_app, !notified_app, !received_app.
    destruct (refresh_events_lists false None st) as [-> ->].
    destruct (refresh_events_lists w t (prepared codes_to_remove st))
      as [-> ->].
    rewrite settings_prepared.
    assert (Hlast : sent ev' = [] /\
                    notified ev'
                    = (if on_new_messages_received (settings st)
                       then received ev' else [])).
    { destruct Hev' as [->| ->].
      - destruct (on_new_messages_received (settings st)); auto.
      - destruct (refresh_events_lists w t
                    (refreshed (prepared codes_to_remove st))) as [-> ->].
        rewrite settings_refreshed, settings_prepared. auto. }
    destruct Hlast as [-> ->]. cbn [sent notified received app].
    split; [reflexivity|]. split; [discriminate|].
    destruct (on_new_messages_received (settings st)); auto.
  - rewrite (send_command_handled_refused _ _ _ _ _ _ _ _ _ Henc).
    cbn [snd]. destruct (refresh_events_lists false None st) as [-> ->].
    auto.
Qed.

(** A command holding a character beyond ASCII is refused unsent. *)
Lemma send_command_handled_sends_and_notifies_witness :
  let beyond := String (ascii_of_nat 233) EmptyString in
  send_command_handled beyond "Home" [] [] ["2002"] true true None
    (controller [] [[("3004", "")]])
  = (Raise UnicodeEncodeError, controller [("3004", "")] [],
     [EvRead [("3004", "")]]).
Proof.
  cbv zeta.
  destruct (send_command_handled_sends_and_notifies
              (String (ascii_of_nat 233) EmptyString) "Home" [] []
              ["2002"] true true None (controller [] [[("3004", "")]]))
    as (_ & Hrefused & _).
  rewrite Hrefused; reflexivity.
Defined.

(** X9: after a successful [ResetError] the log holds no entry whose
    code starts with 1. *)
Theorem ResetError_leaves_no_error_entry (st st' : RobotController)
  (ev : list event) :
  ResetError st = (Ok tt, st', ev) -> count_code "1" (log st') = 0%nat.
Proof.
  unfold ResetError. unfold bind at 1.
  destruct (send_command_handled _ _ _ _ _ _ _ _ st) as [[[[]|e] st1] ev1];
    [|discriminate].
  unfold bind. rewrite update_log_eq, remove_all_code_eq.
  intros [= <- _]. cbn [log set_log]. apply count_code_without_code.
Qed.

Lemma ResetError_leaves_no_error_entry_witness :
  count_code "1"
    (log (state_after ResetError
            (controller [("1011", "x")]
               [[]; [("2005", "")]; [("1012", "y"); ("3000", "")]])))
  = 0%nat.
Proof.
  destruct (ResetError
              (controller [("1011", "x")]
                 [[]; [("2005", "")]; [("1012", "y"); ("3000", "")]]))
    as [[r st'] ev] eqn:E.
  unfold state_after. rewrite E. cbn [fst snd].
  assert (Hr : r = Ok tt).
  { pose proof E as E'. vm_compute in E'. injection E' as <- _ _.
    reflexivity. }
  rewrite Hr in E.
  exact (ResetError_leaves_no_error_entry _ st' ev E).
Defined.

Lemma send_command_handled_sent (cmd method_str : string)
  (codes_to_remove errors_code responses_code : list string)
  (hae w : bool) (t : option Q) (st : RobotController)
  (r : result unit) (st' : RobotController) (ev : list event) :
  encodable (cmd ++ NUL) = true ->
  send_command_handled cmd method_str codes_to_remove errors_code
    responses_code hae w t st = (r, st', ev) ->
  sent ev = [(cmd ++ NUL)%string].
Proof.
  intros Henc E. apply send_command_handled_events in E; [|exact Henc].
  destruct E as (ev' & -> & Hev').
  rewrite !sent_app.
  destruct (refresh_events_lists false None st) as [-> _].
  destruct (refresh_events_lists w t (prepared codes_to_remove st))
    as [-> _].
  destruct Hev' as [->| ->]; [reflexivity|].
  destruct (refresh_events_lists w t
              (refreshed (prepared codes_to_remove st))) as [-> _].
  reflexivity.
Qed.

(** What a command with fixed arguments transmits and needs. *)
Lemma fixed_request_command (name method_str : string)
  (codes_to_remove errors_code responses_code : list string)
  (hae : bool) (st : RobotController) :
  encodable (name ++ NUL) = true ->
  responses_code <> [] ->
  let command :=
    send_command_handled name method_str codes_to_remove errors_code
      responses_code hae true None in
  sent (snd (command st)) = [(name ++ NUL)%string]
  /\ (fst (fst (command st)) = Ok tt ->
      exists c m, In c responses_code /\ In m (all_entries st) /\
                  startswith c m = true).
Proof.
  cbv zeta. intros Henc Hne.
  destruct (send_command_handled name method_str codes_to_remove errors_code
              responses_code hae true None st) as [[r st'] ev] eqn:E.
  cbn [fst snd]. split.
  - eapply send_command_handled_sent; [exact Henc | exact E].
  - intros ->. eapply send_command_handled_ok_found; eauto.
Qed.


Lemma log_empty_at_capacity_0 (st st' : RobotController) :
  maxlen st = 0%nat -> log st = [] -> evolves st st' -> log st' = [].
Proof.
  intros Hn Hl [Hs _ Hb]. unfold maxlen in *. rewrite Hs, Hn, Hl in Hb.
  specialize (Hb (Nat.le_refl 0)).
  destruct (log st'); [reflexivity|cbn in Hb; lia].
Qed.

(** X11: with [log_size = 0] the log keeps nothing of what it reads, so
    a verified command that encodes to ASCII and expects a response
    never finds one: from an empty log it always ends, after its retry,
    with "code not found", whatever the robot answers. *)
Theorem send_command_handled_fails_at_capacity_0 (cmd method_str : string)
  (codes_to_remove errors_code responses_code : list string)
  (hae w : bool) (t : option Q) (st : RobotController) :
  encodable (cmd ++ NUL) = true ->
  maxlen st = 0%nat -> log st = [] -> responses_code <> [] ->
  exists st' ev,
    send_command_handled cmd method_str codes_to_remove errors_code
      responses_code hae w t st
    = (Raise (RuntimeError (CodeNotFound method_str responses_code)),
       st', ev)
    /\ log st' = [] /\ count_reads (after_send ev) = 2%nat.
Proof.
  intros Henc Hn Hl Hne.
  destruct (send_command_handled cmd method_str codes_to_remove errors_code
              responses_code hae w t st) as [[r st'] ev] eqn:E.
  apply send_command_handled_outcome in E; [|exact Henc].
  destruct E as (ev' & Hout & ->).
  set (st3 := refreshed (prepared codes_to_remove st)) in *.
  assert (E3 : evolves st st3).
  { eapply evolves_trans; [apply evolves_prepared|apply evolves_refreshed]. }
  assert (E4 : evolves st (refreshed st3)).
  { eapply evolves_trans; [exact E3|apply evolves_refreshed]. }
  pose proof (log_empty_at_capacity_0 _ _ Hn Hl E3) as L3.
  pose proof (log_empty_at_capacity_0 _ _ Hn Hl E4) as L4.
  destruct Hout;
    try (rewrite L3 in *; contradiction);
    try (rewrite L4 in *; contradiction);
    try contradiction.
  - rewrite L3 in H0. destruct l1; discriminate.
  - rewrite L4 in H1. destruct l1; discriminate.
  - exists (refreshed st3), (refresh_events false None st
             ++ EvSend (cmd ++ NUL)
             :: refresh_events w t (prepared codes_to_remove st)
             ++ refresh_events w t st3).
    split; [reflexivity|]. split; [exact L4|].
    destruct (refresh_events_split false None st (cmd ++ NUL)
                (refresh_events w t (prepared codes_to_remove st)
                 ++ refresh_events w t st3)) as [-> _].
    rewrite count_reads_app.
    destruct (refresh_events_reads w t (prepared codes_to_remove st))
      as [-> _].
    destruct (refresh_events_reads w t st3) as [-> _]. reflexivity.
Qed.

Lemma send_command_handled_fails_at_capacity_0_witness :
  exists st' ev,
    send_command_handled "Home" "Home" ["1006"] ["1014"] ["2002"; "2003"]
      true true None
      (small_controller 0 [] [[]; [("2002", "")]; [("2002", "")]])
    = (Raise (RuntimeError (CodeNotFound "Home" ["2002"; "2003"])), st', ev)
    /\ log st' = [] /\ count_reads (after_send ev) = 2%nat.
Proof.
  apply send_command_handled_fails_at_capacity_0;
    [reflexivity|reflexivity|reflexivity|discriminate].
Defined.

(** ** Motion commands *)

Lemma Qlt_bool_iff (x y : Q) : Qlt_bool x y = true <-> (x < y)%Q.
Proof.
  unfold Qlt_bool. rewrite Qlt_alt.
  destruct (x ?= y)%Q; split; congruence.
Qed.

Lemma motion_command_sends (name : string) (args : list pynum)
  (st : RobotController) :
  encodable name = true ->
  (send_string_command (build_command name args) ;;
   update_log_for_motion_commands) st
  = (Ok tt, refreshed st, motion_events name args st).
Proof.
  intros Hname.
  rewrite (send_string_command_ok _ (encodable_build_command name args Hname)).
  unfold bind, emit, update_log_for_motion_commands, motion_events.
  rewrite update_log_eq. reflexivity.
Qed.

Lemma pose_command_cases (name first_name : string)
  (first orientation : list pynum) (st : RobotController) :
  encodable name = true ->
  if (List.length first =? 3)%nat && (List.length orientation =? 3)%nat
  then pose_command name first_name first orientation st
       = (Ok tt, refreshed st, motion_events name (first ++ orientation) st)
  else exists msg,
      pose_command name first_name first orientation st
      = (Raise (ValueError msg), st, []).
Proof.
  intros Hname. unfold pose_command.
  destruct (List.length first =? 3)%nat; cbn [negb andb].
  - destruct (List.length orientation =? 3)%nat; cbn [negb].
    + apply motion_command_sends, Hname.
    + eexists. reflexivity.
  - eexists. reflexivity.
Qed.

(** X12: each of [MoveLin], [MoveLinRelTRF], [MoveLinRelWRF],
    [MovePose], [SetTRF] and [SetWRF] transmits, when both lists have
    three elements, the command built from its own name and the three
    values of the first list followed by the three of the second, then
    refreshes the log once with the motion timeout and returns; with
    any other length it raises ValueError, sends nothing and leaves
    the state as it was.  [MoveJoints] does the same for a list that
    has not six elements. *)
Theorem list_motion_commands_validate_then_send :
  Forall
    (fun '(name, command) =>
       forall (first orientation : list pynum) (st : RobotController),
         if (List.length first =? 3)%nat
            && (List.length orientation =? 3)%nat
         then command first orientation st
              = (Ok tt, refreshed st,
                 motion_events name (first ++ orientation) st)
         else exists msg,
             command first orientation st
             = (Raise (ValueError msg), st, []))
    pose_commands
  /\ forall (joints : list pynum) (st : RobotController),
       if (List.length joints =? 6)%nat
       then MoveJoints joints st
            = (Ok tt, refreshed st, motion_events "MoveJoints" joints st)
       else MoveJoints joints st
            = (Raise (ValueError
                 ("RobotController::MoveJoints Meca500 has 6 joints "
                    ++ str_nat (List.length joints) ++ " provided")),
               st, []).
Proof.
  split.
  - unfold pose_commands.
    repeat (apply Forall_cons;
            [intros first orientation st; apply pose_command_cases;
             reflexivity|]).
    apply Forall_nil.
  - intros joints st. unfold MoveJoints.
    destruct (List.length joints =? 6)%nat; cbn [negb].
    + apply motion_command_sends. reflexivity.
    + reflexivity.
Qed.

Ltac limit_command :=
  let p := fresh "p" in
  let st := fresh "st" in
  let H := fresh "H" in
  let Hlo := fresh "Hlo" in
  let Hhi := fresh "Hhi" in
  intros p st; split; intros H;
  [ destruct H as [Hlo Hhi];
    try apply Qlt_bool_iff in Hlo; try apply Qle_bool_iff in Hlo;
    apply Qle_bool_iff in Hhi;
    match goal with
    | |- ?command p st = _ => unfold command
    end;
    rewrite Hlo, Hhi; cbn [andb negb]; apply motion_command_sends;
    reflexivity
  | match goal with
    | |- exists _, ?command p st = _ => unfold command
    end;
    match goal with
    | |- context [negb (?lo && ?hi)] =>
        destruct lo eqn:Hlo; [destruct hi eqn:Hhi|]; cbn [andb negb];
        try (eexists; reflexivity)
    end;
    exfalso; apply H;
    try apply Qlt_bool_iff in Hlo; try apply Qle_bool_iff in Hlo;
    apply Qle_bool_iff in Hhi; split; assumption ].

(** X13: [SetCartAcc] lets through the values above 1 and up to 100
    (1 itself is refused), [SetJointAcc] those from 1 to 100,
    [SetJointVel] those from 0 to 100, [SetCartAngVel] those from the
    float 0.001 to 180 and [SetCartLinVel] those from the float 0.001
    to 500.  A value let through is transmitted in the command built
    from the name and that one argument, and the log is refreshed once
    with the motion timeout; any other value raises ValueError with
    nothing sent and the state as it was. *)
Theorem limit_commands_validate_then_send :
  Forall
    (fun '(name, command, allowed) =>
       forall (p : pynum) (st : RobotController),
         (allowed (value p) ->
          command p st = (Ok tt, refreshed st, motion_events name [p] st))
         /\ (~ allowed (value p) ->
             exists msg, command p st = (Raise (ValueError msg), st, [])))
    limit_commands.
Proof.
  unfold limit_commands.
  repeat (apply Forall_cons; [limit_command|]). apply Forall_nil.
Qed.

(** At the bound 1, [SetCartAcc] refuses what [SetJointAcc] sends. *)
Lemma limit_commands_validate_then_send_witness :
  let st := controller [] [] in
  let one := PyNum 1 "1" in
  (exists msg, SetCartAcc one st = (Raise (ValueError msg), st, []))
  /\ SetJointAcc one st
     = (Ok tt, refreshed st, motion_events "SetJointAcc" [one] st).
Proof.
  cbv zeta. pose proof limit_commands_validate_then_send as H.
  unfold limit_commands in H.
  inversion H as [|a l Hacc H1]; subst; clear H.
  inversion H1 as [|a l _ H2]; subst; clear H1.
  inversion H2 as [|a l _ H3]; subst; clear H2.
  inversion H3 as [|a l Hjacc _]; subst; clear H3.
  split.
  - apply (Hacc (PyNum 1 "1") (controller [] [])).
    intros [Hlt _]. vm_compute in Hlt. discriminate.
  - apply (Hjacc (PyNum 1 "1") (controller [] [])).
    split; vm_compute; discriminate.
Defined.

(** ** Connecting and disconnecting *)

Lemma handshake_cases (st : RobotController) :
  let st1 := refreshed st in
  let ev := refresh_events true None st in
  (exists l1 m l2, log st1 = l1 ++ m :: l2 /\ startswith "3001" m = true /\
     none_with ["3001"] l2 /\
     handshake st
     = (Raise (RuntimeError (ErrorInLog "connect" m)),
        set_log st1 (without_code "3001" (log st1)), ev))
  \/ (none_with ["3001"] (log st1) /\
      exists l1 m l2, log st1 = l1 ++ m :: l2 /\ startswith "1" m = true /\
        none_with ["1"] l2 /\
        handshake st
        = (Raise (RuntimeError (ErrorInLog "connect" m)),
           set_log st1 (rev l2 ++ rev l1), ev))
  \/ (none_with ["3001"; "1"] (log st1) /\
      exists m, In m (log st1) /\ startswith "3000" m = true /\
        handshake st
        = (Ok tt, set_log st1 (without_code "3000" (log st1)), ev))
  \/ (none_with ["3001"; "1"; "3000"] (log st1) /\
      handshake st
      = (Raise (RuntimeError (CodeNotFound "check_reconnectsponse" ["3000"])),
         st1, ev)).
Proof.
  cbv zeta. destruct (handshake st) as [[r st'] ev] eqn:E.
  unfold handshake in E. unfold bind at 1 in E.
  rewrite update_log_eq in E. cbv beta iota in E. unfold bind at 1 in E.
  destruct (handle_specific_error_last "3001" "connect" (refreshed st))
    as [[H1 E1]|(k1 & m & k2 & Hk & Pm & Hk2 & E1)]; rewrite E1 in E;
    clear E1; cbv beta iota in E.
  { unfold bind at 1 in E.
    destruct (handle_errors_spec "connect" (refreshed st))
      as [[H2 E2]|(l1 & m & l2 & Hl & Pm & Hl2 & E2)]; rewrite E2 in E;
      clear E2; cbv beta iota in E.
    - assert (H12 : none_with ["3001"; "1"] (log (refreshed st))).
      { intros c m [<-|[<-|[]]]; auto. }
      destruct (check_response_spec ["3000"] "check_reconnectsponse"
                  (refreshed st))
        as [[Hr _]|[(_ & Hn & E3)|(c & m & [<-|[]] & Hm & Pm & E3)]];
        [discriminate| |]; rewrite E3 in E; clear E3;
        rewrite ?app_nil_r in E; cbn [app] in E; rewrite ?app_nil_r in E;
        injection E as <- <- <-.
      + right. right. right. split; [|reflexivity].
        intros c m [<-|[<-|[<-|[]]]] Hm; auto. apply (Hn "3000" m); auto.
        now left.
      + right. right. left. split; [exact H12|]. exists m. auto.
    - rewrite ?app_nil_r in E; cbn [app] in E; rewrite ?app_nil_r in E.
      injection E as <- <- <-.
      right. left. split; [intros c m' [<-|[]]; apply H1|].
      exists l1, m, l2. repeat split; auto.
      intros c m' [<-|[]]; apply Hl2. }
  rewrite ?app_nil_r in E. injection E as <- <- <-.
  left. exists k1, m, k2. repeat split; auto.
  intros c m' [<-|[]]; apply Hk2.
Qed.

(** X14: on an object without socket [connect] creates an empty log,
    waits without timeout for the first batch and reads it once,
    sending nothing; the log then holds the last [log_size] entries of
    that batch in the order of arrival.  If one of them is a 3001,
    [connect] fails on the one that arrived last, no 3001 following
    it, and every 3001 is removed.  Else, if the code of one starts
    with 1, it fails on the one of these that arrived last, no such
    entry following it, and the log is left with that entry removed
    and the others in reverse order.  Else it succeeds if an entry
    3000 is held, removing every such entry, and else raises "code
    not found" for 3000; there is no retry.  In each case the socket
    is set afterwards. *)
Theorem connect_handshake_outcomes (peer : list (list Entry))
  (o : RobotObject) :
  obj_socket o = None ->
  let st0 := new_controller (obj_settings o) peer in
  let held := log (refreshed st0) in
  match connect peer o with
  | (r, o', ev) =>
      ev = refresh_events true None st0 /\
      sent ev = [] /\ count_reads ev = 1%nat /\
      held = most_recent (log_size (obj_settings o))
               (fst (get_last_messages peer)) /\
      obj_settings o' = obj_settings o /\
      obj_socket o' = Some (snd (get_last_messages peer)) /\
      match r with
      | Ok _ =>
          none_with ["3001"; "1"] held /\
          (exists m, In m held /\ startswith "3000" m = true) /\
          obj_mecademic_log o' = Some (without_code "3000" held)
      | Raise (RuntimeError (ErrorInLog method_str m)) =>
          method_str = "connect" /\
          exists l1 l2,
            held = l1 ++ m :: l2 /\
            ((startswith "3001" m = true /\ none_with ["3001"] l2 /\
              obj_mecademic_log o' = Some (without_code "3001" held))
             \/
             (none_with ["3001"] held /\ startswith "1" m = true /\
              none_with ["1"] l2 /\
              obj_mecademic_log o' = Some (rev l2 ++ rev l1)))
      | Raise (RuntimeError (CodeNotFound method_str codes)) =>
          method_str = "check_reconnectsponse" /\ codes = ["3000"] /\
          none_with ["3001"; "1"; "3000"] held /\
          obj_mecademic_log o' = Some held
      | Raise _ => False
      end
  end.
Proof.
  intros Hs. cbv zeta. unfold connect. rewrite Hs.
  set (st0 := new_controller (obj_settings o) peer).
  assert (Hheld : log (refreshed st0)
                  = most_recent (log_size (obj_settings o))
                      (fst (get_last_messages peer))
                  /\ incoming (refreshed st0) = snd (get_last_messages peer)).
  { destruct (refreshed_log st0)
      as [(rest & Hi & ->)|[(Hi & ->)|(x & xs & rest & Hi & ->)]];
      cbn [incoming st0 new_controller] in Hi; rewrite Hi;
      cbn [log incoming set_log set_incoming st0 new_controller
           get_last_messages fst snd].
    - split; reflexivity.
    - split; reflexivity.
    - split; [|reflexivity].
      rewrite DequeFacts.extend_most_recent by (cbn; lia). reflexivity. }
  destruct Hheld as [Hheld Hinc].
  destruct (refresh_events_reads true None st0) as [Hreads _].
  destruct (refresh_events_lists true None st0) as [Hsent _].
  destruct (handshake_cases st0)
    as [(l1 & m & l2 & Hl & Pm & Hl2 & E)
       |[(H1 & l1 & m & l2 & Hl & Pm & Hl2 & E)
       |[(H12 & m & Hm & Pm & E)|(H123 & E)]]];
    rewrite E; cbn [obj_settings obj_socket obj_mecademic_log
                    log incoming set_log];
    repeat (split; [first [reflexivity|assumption
                          |rewrite Hinc; reflexivity]|]).
  - exists l1, l2. split; [exact Hl|]. left. auto.
  - exists l1, l2. split; [exact Hl|]. right. auto.
  - split; [exists m; auto|reflexivity].
  - reflexivity.
Qed.

Lemma connect_handshake_outcomes_witness :
  connect [[("3000", "Connected to Meca500")]] (new_object default_settings)
  = (Ok tt,
     {| obj_settings := default_settings;
        obj_socket := Some [];
        obj_mecademic_log := Some [] |},
     [EvWait None; EvRead [("3000", "Connected to Meca500")]])
  /\ fst (connect [[("1011", "a"); ("3000", ""); ("1012", "b"); ("2007", "")]]
            (new_object default_settings))
     = (Raise (RuntimeError (ErrorInLog "connect" ("1012", "b"))),
        {| obj_settings := default_settings;
           obj_socket := Some [];
           obj_mecademic_log :=
             Some [("2007", ""); ("3000", ""); ("1011", "a")] |})
  /\ sent (snd (connect [[("3000", "Connected to Meca500")]]
                  (new_object default_settings))) = [].
Proof.
  split; [reflexivity|]. split; [reflexivity|].
  pose proof (connect_handshake_outcomes
                [[("3000", "Connected to Meca500")]]
                (new_object default_settings) eq_refl) as H.
  cbv zeta in H.
  destruct (connect [[("3000", "Connected to Meca500")]]
              (new_object default_settings)) as [[r o'] ev].
  cbn [snd]. apply H.
Defined.

(** X15: on an object whose socket is set [connect] does nothing and
    returns normally.  As [connect] sets the socket before the
    handshake, this holds after every call of [connect], also after
    one whose handshake failed.  After [disconnect] a new [connect]
    starts from an empty log: what the old log held plays no role. *)
Theorem connect_only_without_socket (peer peer' : list (list Entry))
  (o : RobotObject) :
  let o1 := snd (fst (connect peer o)) in
  connect peer' o1 = (Ok tt, o1, [])
  /\ connect peer (disconnect o)
     = connect peer (new_object (obj_settings o))
  /\ obj_socket (disconnect o) = None
  /\ obj_mecademic_log (disconnect o) = obj_mecademic_log o.
Proof.
  cbv zeta. split; [|split; [|split]].
  - unfold connect at 2 3.
    destruct (obj_socket o) eqn:Hs.
    + cbn [fst snd]. unfold connect. rewrite Hs. reflexivity.
    + destruct (handshake (new_controller (obj_settings o) peer))
        as [[r st] ev].
      cbn [fst snd]. reflexivity.
  - unfold disconnect, connect, new_object.
    destruct (obj_socket o) eqn:Hs; cbn [obj_socket obj_settings].
    + reflexivity.
    + rewrite Hs. reflexivity.
  - unfold disconnect. destruct (obj_socket o) eqn:Hs; [reflexivity|exact Hs].
  - unfold disconnect. destruct (obj_socket o); reflexivity.
Qed.

(** ** The command builder of MecademicRobot.py *)

Lemma str_at_middle (pre : list pynum) (x : pynum) (post : list pynum) :
  str_at (pre ++ x :: post) (List.length pre) = str x.
Proof.
  unfold str_at. rewrite nth_error_app2 by lia.
  rewrite Nat.sub_diag. reflexivity.
Qed.

Lemma fold_commas (pre xs post : list pynum) (acc : string) :
  fold_left
    (fun command index =>
       ((command ++ str_at (pre ++ xs ++ post) index) ++ ",")%string)
    (seq (List.length pre) (List.length xs)) acc
  = (acc ++ commas xs)%string.
Proof.
  revert pre acc. induction xs as [|x xs IH]; intros pre acc.
  - cbn. clear. induction acc as [|c acc IH]; cbn; [reflexivity|].
    f_equal. exact IH.
  - cbn [List.length seq fold_left app commas].
    rewrite str_at_middle.
    replace (pre ++ x :: xs ++ post) with ((pre ++ [x]) ++ xs ++ post)
      by (rewrite <- app_assoc; reflexivity).
    replace (S (List.length pre)) with (List.length (pre ++ [x]))
      by (rewrite length_app; cbn; lia).
    rewrite IH, !string_append_assoc. reflexivity.
Qed.

Lemma concat_commas (xs : list pynum) (z : pynum) :
  String.concat "," (map str (xs ++ [z])) = (commas xs ++ str z)%string.
Proof.
  induction xs as [|x xs IH]; [reflexivity|].
  cbn [app map commas]. destruct xs as [|y xs].
  - cbn [app map String.concat commas].
    rewrite !string_append_assoc. reflexivity.
  - cbn [app map String.concat] in *. rewrite IH.
    rewrite !string_append_assoc. reflexivity.
Qed.

(** X16: [_buildCommand] returns the name alone when there is no
    argument, and otherwise the name, an opening bracket, the
    arguments in their textual form separated by single commas, and a
    closing bracket, with no comma after the last argument: the wire
    encoding assumed for [build_command]. *)
Theorem buildCommand_wire_format (cmd : string) (arg_list : list pynum) :
  _buildCommand cmd arg_list
  = match arg_list with
    | [] => cmd
    | _ :: _ =>
        (cmd ++ "(" ++ String.concat "," (map str arg_list) ++ ")")%string
    end
  /\ _buildCommand cmd arg_list = build_command cmd arg_list.
Proof.
  assert (H : _buildCommand cmd arg_list = build_command cmd arg_list).
  { unfold build_command. destruct arg_list as [|a args]; [reflexivity|].
    assert (Hne : a :: args <> []) by discriminate.
    destruct (exists_last Hne) as (xs & z & ->).
    unfold _buildCommand, str_last.
    rewrite length_app. cbn [List.length].
    replace (List.length xs + 1 =? 0)%nat with false
      by (symmetry; apply Nat.eqb_neq; lia).
    cbn [negb].
    replace (List.length xs + 1 - 1)%nat with (List.length xs) by lia.
    pose proof (fold_commas [] xs [z] (cmd ++ "(")%string) as Hf.
    cbn [app List.length] in Hf. rewrite Hf.
    pose proof (str_at_middle xs z []) as Hz. rewrite Hz.
    rewrite concat_commas, !string_append_assoc.
    destruct (xs ++ [z]) eqn:Ex; [destruct xs; discriminate|].
    reflexivity. }
  split; [|exact H]. rewrite H. destruct arg_list; reflexivity.
Qed.

(** ** GetStatusRobot *)

Lemma quiet_ret {A} (a : A) : quiet (ret a).
Proof. intros st. repeat split. discriminate. Qed.

Lemma quiet_index (t : list Z) (i : nat) : quiet (index t i).
Proof.
  intros st. unfold index, state_after.
  destruct (nth_error t i); repeat split; discriminate.
Qed.

Lemma quiet_payload_of (msg : option Entry) : quiet (payload_of msg).
Proof.
  intros st. unfold payload_of, state_after.
  destruct msg; repeat split; discriminate.
Qed.

Lemma quiet_payload2tuple_int (payload : string) :
  quiet (payload2tuple_int payload).
Proof.
  intros st. unfold payload2tuple_int, state_after.
  destruct (map_option int_of_string (split_commas payload));
    repeat split; discriminate.
Qed.

Lemma quiet_bind {A B} (m : M A) (k : A -> M B) :
  quiet m -> (forall a, quiet (k a)) -> quiet (bind m k).
Proof.
  intros Hm Hk st. destruct (Hm st) as (Hev & Hst & Hr).
  unfold state_after in *. unfold bind.
  destruct (m st) as [[[a|e] st1] ev1]; cbn [fst snd] in *; subst st1 ev1.
  - destruct (Hk a st) as (Hev' & Hst' & Hr'). unfold state_after in Hst'.
    destruct (k a st) as [[r2 st2] ev2]. cbn [fst snd app] in *. auto.
  - repeat split. intros msg [= ->]. apply (Hr msg). reflexivity.
Qed.

(** The part of [GetStatusRobot] that decodes the message. *)
Lemma status_decoding_quiet (msg : option Entry) :
  quiet
    (payload <- payload_of msg ;;
     status <- payload2tuple_int payload ;;
     s0 <- index status 0 ;;
     s1 <- index status 1 ;;
     s2 <- index status 2 ;;
     s3 <- index status 3 ;;
     s4 <- index status 4 ;;
     s5 <- index status 5 ;;
     s6 <- index status 6 ;;
     ret [("as", s0); ("hs", s1); ("sm", s2); ("es", s3);
          ("pm", s4); ("eob", s5); ("eom", s6)]).
Proof.
  repeat (apply quiet_bind;
          [first [apply quiet_payload_of|apply quiet_payload2tuple_int
                 |apply quiet_index]|intros ?]).
  apply quiet_ret.
Qed.

(** One pass of [GetStatusRobot], from the log it finds. *)
Lemma GetStatusRobot_pass_cases (again : option (M (list (string * Z))))
  (st : RobotController) :
  let st1 := refreshed st in
  let ev1 := EvSend ("GetStatusRobot" ++ NUL) :: refresh_events true None st in
  (none_with ["2007"] (log st1) /\
   GetStatusRobot_pass again st
   = match again with
     | Some retry_call =>
         match retry_call st1 with
         | (r, st', ev) => (r, st', ev1 ++ ev)
         end
     | None => (Raise TypeError, st1, ev1)
     end)
  \/
  (exists m r,
     In m (log st1) /\ startswith "2007" m = true /\
     (forall msg, r <> Raise (RuntimeError msg)) /\
     GetStatusRobot_pass again st
     = (r, set_log st1 (without_code "2007" (log st1)), ev1)).
Proof.
  cbv zeta.
  destruct (GetStatusRobot_pass again st) as [[r st'] ev] eqn:E.
  unfold GetStatusRobot_pass in E.
  rewrite (send_string_command_ok "GetStatusRobot" eq_refl) in E.
  unfold bind at 1 in E. unfold emit in E.
  cbv beta iota in E.
  unfold bind at 1 in E. rewrite update_log_eq in E. cbv beta iota in E.
  unfold bind at 1 in E.
  destruct (get_last_code_occurance_spec "2007" true (refreshed st))
    as [[Hnone E1]|(l1 & m & l2 & Hl & Pm & _ & E1)]; rewrite E1 in E;
    clear E1; cbv beta iota in E.
  - left. split; [intros c m [<-|[]]; apply Hnone|].
    destruct again as [retry_call|].
    + destruct (retry_call (refreshed st)) as [[r1 st1] ev1].
      cbn [app] in E. rewrite <- E. reflexivity.
    + cbv [bind payload_of raise] in E. cbn [app] in E.
      rewrite ?app_nil_r in E. rewrite <- E. reflexivity.
  - right.
    pose proof (status_decoding_quiet (Some m)
                  (set_log (refreshed st)
                     (without_code "2007" (log (refreshed st))))) as Hq.
    unfold state_after in Hq. destruct Hq as (Hev & Hst & Hr).
    match type of Hev with
    | snd (?decode ?s) = [] =>
        destruct (decode s) as [[r1 st1] ev1]
    end.
    cbn [fst snd] in *. subst st1 ev1.
    cbn [app] in E. rewrite ?app_nil_r in E. injection E as <- <- <-.
    exists m, r1.
    split; [rewrite Hl; apply in_elt|]. split; [exact Pm|].
    split; [exact Hr|]. reflexivity.
Qed.



(** ** Error entries and the verified protocol *)

(** X18: for a command that encodes to ASCII and unless the generic
    check is suppressed, an entry whose code starts with 1 in the log
    after the refresh that follows the transmission makes the call fail
    at once, without retry, on an error entry: one of a code of the
    command or one whose code starts with 1, even when the expected
    response is in the log as well. *)
Theorem send_command_handled_error_entry_is_fatal (cmd method_str : string)
  (codes_to_remove errors_code responses_code : list string)
  (w : bool) (t : option Q) (st : RobotController) (x : Entry) :
  let st3 := refreshed (prepared codes_to_remove st) in
  encodable (cmd ++ NUL) = true ->
  In x (log st3) -> startswith "1" x = true ->
  exists m st',
    In m (log st3) /\
    (startswith "1" m = true \/
     exists c, In c errors_code /\ startswith c m = true) /\
    send_command_handled cmd method_str codes_to_remove errors_code
      responses_code true w t st
    = (Raise (RuntimeError (ErrorInLog method_str m)), st',
       refresh_events false None st
       ++ EvSend (cmd ++ NUL)
       :: refresh_events w t (prepared codes_to_remove st)).
Proof.
  cbv zeta. intros Henc Hx Px.
  rewrite send_command_handled_unfold by exact Henc.
  unfold checks_after_send. unfold bind at 1.
  destruct (for_each_handle_specific_error_spec errors_code method_str
              (refreshed (prepared codes_to_remove st)))
    as [[_ E]|(c & m & Hc & Hm & Pm & E)]; rewrite E; clear E;
    cbv beta iota.
  - unfold bind at 1.
    destruct (handle_errors_spec method_str
                (refreshed (prepared codes_to_remove st)))
      as [[Hn _]|(l1 & m & l2 & Hl & Pm & _ & E)].
    + rewrite (Hn x Hx) in Px. discriminate.
    + rewrite E. cbv beta iota. exists m. eexists.
      split; [rewrite Hl; apply in_elt|]. split; [left; exact Pm|].
      rewrite !app_nil_r. reflexivity.
  - exists m. eexists. split; [exact Hm|]. split; [right; exists c; auto|].
    rewrite app_nil_r. reflexivity.
Qed.

Lemma send_command_handled_error_entry_is_fatal_witness :
  fst (fst (ClearMotion
              (controller [] [[]; [("1011", "x"); ("2044", "")]])))
  = Raise (RuntimeError (ErrorInLog "ClearMotion" ("1011", "x"))).
Proof.
  destruct (send_command_handled_error_entry_is_fatal
              "ClearMotion" "ClearMotion" [] [] ["2044"] true None
              (controller [] [[]; [("1011", "x"); ("2044", "")]])
              ("1011", "x"))
    as (m & st' & Hm & Hkind & E).
  - reflexivity.
  - vm_compute. auto.
  - reflexivity.
  - unfold ClearMotion. rewrite E. cbn [fst].
    vm_compute in Hm. destruct Hm as [<-|[<-|[]]]; [reflexivity|].
    destruct Hkind as [P|(c & [] & _)]. discriminate.
Defined.

(** ** What SetEOB and SetEOM transmit *)

(** X19: when the argument equals 0 or 1, [SetEOB] and [SetEOM]
    transmit exactly once, whatever the outcome, the command built
    from their name and the argument as it was given (so [1.0] is sent
    as it prints, not as [1]), followed by one null byte. *)
Theorem SetEOB_SetEOM_transmit_their_argument (e : pynum)
  (st : RobotController) :
  (value e == 0 \/ value e == 1)%Q ->
  sent (snd (SetEOB e st)) = [(build_command "SetEOB" [e] ++ NUL)%string]
  /\ sent (snd (SetEOM e st)) = [(build_command "SetEOM" [e] ++ NUL)%string].
Proof.
  intros He.
  assert (Hb : Qeq_bool (value e) 0 = true
               \/ (Qeq_bool (value e) 0 = false
                   /\ Qeq_bool (value e) 1 = true)).
  { destruct (Qeq_bool (value e) 0) eqn:E0; [left; reflexivity|right].
    split; [reflexivity|]. destruct He as [He|He].
    - apply Qeq_bool_iff in He. congruence.
    - apply Qeq_bool_iff. exact He. }
  unfold SetEOB, SetEOM, bind.
  destruct Hb as [-> |[-> ->]]; cbn [ret];
    split;
    match goal with
    | |- context [send_command_handled ?c ?m ?rm ?er ?rs ?h ?w ?t st] =>
        destruct (send_command_handled c m rm er rs h w t st)
          as [[r st'] ev] eqn:E;
        cbn [snd app];
        eapply send_command_handled_sent;
          [apply encodable_build_command; reflexivity|exact E]
    end.
Qed.

Lemma SetEOB_SetEOM_transmit_their_argument_witness :
  sent (snd (SetEOB (PyNum 1 "1.0") (controller [] [])))
  = [("SetEOB(1.0)" ++ NUL)%string].
Proof.
  apply (SetEOB_SetEOM_transmit_their_argument (PyNum 1 "1.0")
           (controller [] [])).
  right. reflexivity.
Defined.
